(** * Recursive slide loading of the Slidev markdown parser

    A shallow embedding of [packages/parser/src/fs.ts]: the document loader
    [loadMarkdown], the slide resolver [loadSlide] and the entry point [load],
    together with the properties of the flattened slide sequence they build.

    Conventions of the embedding.
    - The three closure variables of [load] ([markdownFiles], [watchFiles],
      [slides]) are the fields of an explicit [State] threaded through a small
      state-and-exception monad [M].
    - A document object is referred to by its key in [markdownFiles]; a raw
      slide object by a [SlideRef] (key of its document, zero-based position in
      [md.slides]).  The only field of a raw slide that is ever written,
      [imports], lives in a side table of the state keyed by [SlideRef].
    - [markdownFiles] and frontmatter objects are JS objects used as maps; they
      are [gmap]s (members inherited from [Object.prototype] are not modelled).
    - A rejected promise or a thrown value is [Threw e], with [e] the text the
      template literal [`${e}`] would print for it.
    - Recursion through nested [src] imports is bounded by a fuel argument that
      counts import depth; running out of it is [Diverged], which no [catch]
      intercepts (the call stack is taken to be unbounded).
    - The calls of the injected collaborators ([loadSource], [parse],
      [existsSync]) are recorded in ghost logs of the state. *)

From Stdlib Require Import ZArith Ascii String.
From stdpp Require Import gmap strings list fin_maps.

Open Scope string_scope.
Open Scope list_scope.

(** ** JavaScript values found in YAML frontmatter

    Sequences and nested mappings are kept opaque as [JComposite]: objects,
    hence truthy and without a [split] method.  Numbers are the integers. *)

Inductive JsValue :=
  | JNull
  | JBool (b : bool)
  | JNum (n : Z)
  | JStr (s : string)
  | JComposite (yaml : string).

(** [ToBoolean] of a property read; an absent key reads as [undefined]. *)
Definition truthy (v : option JsValue) : bool :=
  match v with
  | None => false
  | Some JNull => false
  | Some (JBool b) => b
  | Some (JNum n) => negb (n =? 0)%Z
  | Some (JStr s) => negb (String.eqb s "")
  | Some (JComposite _) => true
  end.

(** ** String helpers *)

Definition hashChar : ascii := "#"%char.
Definition slashChar : ascii := "/"%char.
Definition backslashChar : ascii := "092"%char.

(** [s.split(sep)] for a one-character separator. *)
Fixpoint split (sep : ascii) (s : string) : list string :=
  match s with
  | EmptyString => [EmptyString]
  | String c rest =>
      if Ascii.eqb c sep then EmptyString :: split sep rest
      else match split sep rest with
           | piece :: more => String c piece :: more
           | [] => [String c EmptyString]
           end
  end.

(** [slash] of [@antfu/utils]: [str.replace(/\\/g, '/')]. *)
Fixpoint slash (s : string) : string :=
  match s with
  | EmptyString => EmptyString
  | String c rest =>
      String (if Ascii.eqb c backslashChar then slashChar else c) (slash rest)
  end.

(** [const [rawPath, rangeRaw] = src.split('#')]: the first piece, and the
    second when there is one. *)
Definition rawPathOf (src : string) : string :=
  default EmptyString (split hashChar src !! 0).
Definition rangeRawOf (src : string) : option string :=
  split hashChar src !! 1.

(** A split at the first separator only, as the specification words it: the
    text before it and, when there is one, all of the text after it. *)
Fixpoint splitAtFirst (sep : ascii) (s : string) : string * option string :=
  match s with
  | EmptyString => (EmptyString, None)
  | String c rest =>
      if Ascii.eqb c sep then (EmptyString, Some rest)
      else let '(before, after) := splitAtFirst sep rest in
           (String c before, after)
  end.

(** [s.includes(c)] *)
Fixpoint occurs (c : ascii) (s : string) : bool :=
  match s with
  | EmptyString => false
  | String c' rest => Ascii.eqb c' c || occurs c rest
  end.

(** [s.substring(1)] *)
Definition substring1 (s : string) : string :=
  match s with
  | EmptyString => EmptyString
  | String _ rest => rest
  end.

Definition startsWith (p s : string) : bool := String.prefix p s.

(** The test [/^https?:\/\//.test(s)]. *)
Definition isRemote (s : string) : bool :=
  startsWith "http://" s || startsWith "https://" s.

(** ** Data model *)

Record ParseError := { row : nat; message : string }.

(** [SourceSlideInfo] without its [imports] annotation. *)
Record SourceSlideInfo := {
  slide_filepath : string;
  slide_frontmatter : gmap string JsValue;
  slide_start : nat;
  slide_content : string;
  slide_raw : string;
  slide_revision : string;
  slide_frontmatterRaw : option string;
  slide_note : option string;
  slide_title : option string;
  slide_level : option nat
}.

Record SlidevMarkdown := {
  md_filepath : string;
  md_raw : string;
  md_slides : list SourceSlideInfo;
  md_errors : option (list ParseError)
}.

Abbreviation SlideRef := (string * nat)%type.

Record SlideInfo := {
  frontmatter : gmap string JsValue;
  content : string;
  revision : string;
  frontmatterRaw : option string;
  note : option string;
  title : option string;
  level : option nat;
  index : nat;
  importChain : option (list SlideRef);
  source : SlideRef
}.

(** The object spread [{ ...own, ...override }]; [∪] on [gmap] is
    left-biased, so the override goes first. *)
Definition spread (own : gmap string JsValue)
    (override : option (gmap string JsValue)) : gmap string JsValue :=
  match override with
  | Some o => o ∪ own
  | None => own
  end.

(** ** Collaborators *)

Inductive Settled (A : Type) :=
  | Fulfilled (a : A)
  | Rejected (e : string).
Arguments Fulfilled {A} a.
Arguments Rejected {A} e.

Definition SlidevPreparserExtension := string.
Definition Features := list string.

(** Everything [load] takes from outside [fs.ts].  [preparserExtensions]
    stands for lines 50 to 65 as a whole (headmatter scan, [YAML.parse] and the
    registered extension loader; [Fulfilled None] when none is registered);
    [resolve] and [dirname] are those of [node:path]. *)
Record Env := {
  loadSource : string → Settled string;
  preparserExtensions :
    string → string → option string →
    Settled (option (list SlidevPreparserExtension));
  parse :
    string → string → option (list SlidevPreparserExtension) →
    Settled SlidevMarkdown;
  parseRangeString : nat → option string → list Z;
  detectFeatures : string → Features;
  existsSync : string → bool;
  resolve : string → string → string;
  dirname : string → string
}.


(** ** State of one [load] invocation *)

Record State := {
  markdownFiles : gmap string SlidevMarkdown;
  watchFiles : gmap string (gset nat);
  slides : list SlideInfo;
  slideImports : gmap SlideRef (list SlideRef);
  sourceCalls : list string;
  parseCalls : list string;
  existsCalls : list string
}.

Definition initialState : State :=
  {| markdownFiles := ∅; watchFiles := ∅; slides := [];
     slideImports := ∅; sourceCalls := []; parseCalls := [];
     existsCalls := [] |}.

Definition setMarkdownFiles (f : gmap string SlidevMarkdown → gmap string SlidevMarkdown)
    (st : State) : State :=
  {| markdownFiles := f (markdownFiles st); watchFiles := watchFiles st;
     slides := slides st; slideImports := slideImports st;
     sourceCalls := sourceCalls st; parseCalls := parseCalls st;
     existsCalls := existsCalls st |}.

Definition setWatchFiles (f : gmap string (gset nat) → gmap string (gset nat))
    (st : State) : State :=
  {| markdownFiles := markdownFiles st; watchFiles := f (watchFiles st);
     slides := slides st; slideImports := slideImports st;
     sourceCalls := sourceCalls st; parseCalls := parseCalls st;
     existsCalls := existsCalls st |}.

Definition setSlides (f : list SlideInfo → list SlideInfo) (st : State) : State :=
  {| markdownFiles := markdownFiles st; watchFiles := watchFiles st;
     slides := f (slides st); slideImports := slideImports st;
     sourceCalls := sourceCalls st; parseCalls := parseCalls st;
     existsCalls := existsCalls st |}.

Definition setSlideImports
    (f : gmap SlideRef (list SlideRef) → gmap SlideRef (list SlideRef))
    (st : State) : State :=
  {| markdownFiles := markdownFiles st; watchFiles := watchFiles st;
     slides := slides st; slideImports := f (slideImports st);
     sourceCalls := sourceCalls st; parseCalls := parseCalls st;
     existsCalls := existsCalls st |}.

Definition logSource (path : string) (st : State) : State :=
  {| markdownFiles := markdownFiles st; watchFiles := watchFiles st;
     slides := slides st; slideImports := slideImports st;
     sourceCalls := sourceCalls st ++ [path]; parseCalls := parseCalls st;
     existsCalls := existsCalls st |}.

Definition logParse (path : string) (st : State) : State :=
  {| markdownFiles := markdownFiles st; watchFiles := watchFiles st;
     slides := slides st; slideImports := slideImports st;
     sourceCalls := sourceCalls st; parseCalls := parseCalls st ++ [path];
     existsCalls := existsCalls st |}.

Definition logExists (path : string) (st : State) : State :=
  {| markdownFiles := markdownFiles st; watchFiles := watchFiles st;
     slides := slides st; slideImports := slideImports st;
     sourceCalls := sourceCalls st; parseCalls := parseCalls st;
     existsCalls := existsCalls st ++ [path] |}.

(** ** The monad: state, thrown values, divergence *)

Inductive Outcome (A : Type) :=
  | Returned (a : A)
  | Threw (e : string)
  | Diverged.
Arguments Returned {A} a.
Arguments Threw {A} e.
Arguments Diverged {A}.

Definition M (A : Type) : Type := State → Outcome A * State.

Definition ret {A} (a : A) : M A := λ st, (Returned a, st).

Definition bind {A B} (m : M A) (k : A → M B) : M B :=
  λ st,
    match m st with
    | (Returned a, st') => k a st'
    | (Threw e, st') => (Threw e, st')
    | (Diverged, st') => (Diverged, st')
    end.

Definition throw {A} (e : string) : M A := λ st, (Threw e, st).
Definition diverge {A} : M A := λ st, (Diverged, st).
Definition getState : M State := λ st, (Returned st, st).
Definition modify (f : State → State) : M unit := λ st, (Returned tt, f st).

(** [try { body } catch (e) { handler }]: the mutations made before the
    throw stay. *)
Definition tryCatch {A} (body : M A) (handler : string → M A) : M A :=
  λ st,
    match body st with
    | (Threw e, st') => handler e st'
    | other => other
    end.

Definition await {A} (r : Settled A) : M A :=
  match r with
  | Fulfilled a => ret a
  | Rejected e => throw e
  end.

Declare Scope slidev_scope.
Delimit Scope slidev_scope with slidev.
Notation "'let*' x ':=' m 'in' k" := (bind m (λ x, k))
  (at level 10, x name, m at level 100, k at level 200) : slidev_scope.
Notation "'run' m 'then' k" := (bind m (λ _, k))
  (at level 10, m at level 100, k at level 200) : slidev_scope.
Open Scope slidev_scope.

(** [for (const x of xs) body(x)] *)
Fixpoint forEach {A} (body : A → M unit) (xs : list A) : M unit :=
  match xs with
  | [] => ret tt
  | x :: rest => run body x then forEach body rest
  end.

(** ** The loader *)

Definition withErrors (errs : option (list ParseError)) (md : SlidevMarkdown)
    : SlidevMarkdown :=
  {| md_filepath := md_filepath md; md_raw := md_raw md;
     md_slides := md_slides md; md_errors := errs |}.

(** [md.errors ??= []] on the document stored under key [md]. *)
Definition initErrors (md : string) : M unit :=
  modify (setMarkdownFiles
    (alter (λ d, withErrors (Some (default [] (md_errors d))) d) md)).

(** The state after [md.errors ??= []; md.errors.push(e)]. *)
Definition withError (md : string) (e : ParseError) (st : State) : State :=
  setMarkdownFiles
    (alter (λ d, withErrors (Some (default [] (md_errors d) ++ [e])) d) md) st.

Definition pushError (md : string) (e : ParseError) : M unit :=
  modify (withError md e).

(** [importer.imports ??= []; importer.imports.push(sub)] *)
Definition pushImport (importer sub : SlideRef) : M unit :=
  modify (setSlideImports
    (λ t, <[importer := default [] (t !! importer) ++ [sub]]> t)).

(** [md.slides[index - 1]]; [undefined] is [None]. *)
Definition slideAt (md : SlidevMarkdown) (index : Z) : option SourceSlideInfo :=
  if (index - 1 <? 0)%Z then None
  else md_slides md !! Z.to_nat (index - 1).

(** What [`${e}`] gives for the errors the engine raises itself.  Line 115
    destructures the result of the call, so a [src] that is truthy and not a
    string fails with the message of a failed destructuring call. *)
Definition splitNotAFunction : string :=
  "TypeError: slide.frontmatter.src.split is not a function or its return value is not iterable".
Definition startOfUndefined : string :=
  "TypeError: Cannot read properties of undefined (reading 'start')".
Definition lengthOfUndefined : string :=
  "TypeError: Cannot read properties of undefined (reading 'length')".

(** The memo of line 67 is a plain object, so [markdownFiles[path]] also
    finds the members every object inherits from [Object.prototype]; each of
    them is truthy and has no [slides]. *)
Definition inheritedMembers : list string :=
  [ "constructor"; "__defineGetter__"; "__defineSetter__"; "hasOwnProperty";
    "__lookupGetter__"; "__lookupSetter__"; "isPrototypeOf";
    "propertyIsEnumerable"; "toString"; "valueOf"; "__proto__";
    "toLocaleString" ].

Definition inherited (key : string) : bool :=
  bool_decide (key ∈ inheritedMembers).

Section Loader.
Variable env : Env.
Variable userRoot : string.
Variable extensions : option (list SlidevPreparserExtension).

Definition callLoadSource (path : string) : M string :=
  run modify (logSource path) then await (loadSource env path).

Definition callParse (raw path : string) : M SlidevMarkdown :=
  run modify (logParse path) then await (parse env raw path extensions).

Definition callExistsSync (path : string) : M bool :=
  run modify (logExists path) then ret (existsSync env path).

(** Lines 116 to 125: the path an import names. *)
Definition resolveSrc (slide : SourceSlideInfo) (rawPath : string) : string :=
  if isRemote rawPath then rawPath
  else slash
         (if startsWith "/" rawPath
          then resolve env userRoot (substring1 rawPath)
          else resolve env (dirname env (slide_filepath slide)) rawPath).

(** Lines 148 to 159: the record pushed for a terminal slide. *)
Definition resolvedSlide (self : SlideRef) (slide : SourceSlideInfo)
    (frontmatterOverride : option (gmap string JsValue))
    (importChain : option (list SlideRef)) (position : nat) : SlideInfo :=
  {| frontmatter := spread (slide_frontmatter slide) frontmatterOverride;
     content := slide_content slide;
     revision := slide_revision slide;
     frontmatterRaw := slide_frontmatterRaw slide;
     note := slide_note slide;
     title := slide_title slide;
     level := slide_level slide;
     index := position;
     importChain := importChain;
     source := self |}.

(** [loadSlide], lines 107 to 161.  [loadMarkdown] is the recursive call of
    line 140 (its result is dropped), [md] the key of the owning document,
    [self] the reference of the raw slide [slide]. *)
Definition loadSlide
    (loadMarkdown :
      string → option string → option (gmap string JsValue) →
      option (list SlideRef) → M unit)
    (md : string) (self : SlideRef) (slide : SourceSlideInfo)
    (frontmatterOverride : option (gmap string JsValue))
    (importChain : option (list SlideRef)) : M unit :=
  let fm := slide_frontmatter slide in
  if truthy (fm !! "disabled") || truthy (fm !! "hide") then ret tt
  else if truthy (fm !! "src") then
    match fm !! "src" with
    | Some (JStr src) =>
        let rawPath := rawPathOf src in
        let rangeRaw := rangeRawOf src in
        let path := resolveSrc slide rawPath in
        let mergedFrontmatter := delete "src" (spread fm frontmatterOverride) in
        let* missing :=
          (if isRemote path then ret false
           else let* found := callExistsSync path in ret (negb found)) in
        if missing then
          pushError md
            {| row := slide_start slide;
               message := "Imported markdown file not found: " +:+ path |}
        else
          loadMarkdown path rangeRaw (Some mergedFrontmatter)
            (Some (match importChain with
                   | Some chain => chain ++ [self]
                   | None => [self]
                   end))
    | _ => throw splitNotAFunction
    end
  else
    let* st := getState in
    modify (setSlides (λ out,
      out ++ [resolvedSlide self slide frontmatterOverride importChain
                (length (slides st))])).

(** One iteration of the loop of lines 86 to 102 on an existing slide. *)
Definition loadSubSlide
    (recur :
      string → option string → option (gmap string JsValue) →
      option (list SlideRef) → M unit)
    (path : string) (frontmatterOverride : option (gmap string JsValue))
    (importers : option (list SlideRef)) (self : SlideRef)
    (subSlide : SourceSlideInfo) : M unit :=
  let* failed :=
    tryCatch
      (run loadSlide recur path self subSlide frontmatterOverride importers
       then ret false)
      (λ e,
        run pushError path
              {| row := slide_start subSlide;
                 message := "Error when loading slide: " +:+ e |}
        then ret true) in
  if (failed : bool) then ret tt
  else match importers ≫= last with
       | Some directImporter => pushImport directImporter self
       | None => ret tt
       end.

(** The loop body.  When [md.slides[index - 1]] is [undefined], [loadSlide]
    throws on reading [slide.frontmatter], and the handler, after
    [md.errors ??= []], throws on reading [subSlide.start]. *)
Definition loopBody
    (recur :
      string → option string → option (gmap string JsValue) →
      option (list SlideRef) → M unit)
    (path : string) (md : SlidevMarkdown)
    (frontmatterOverride : option (gmap string JsValue))
    (importers : option (list SlideRef)) (index : Z) : M unit :=
  match slideAt md index with
  | Some subSlide =>
      loadSubSlide recur path frontmatterOverride importers
        (path, Z.to_nat (index - 1)) subSlide
  | None => run initErrors path then throw startOfUndefined
  end.

(** Lines 77 to 83: the memo, or fetch, parse and store.  When [path] is the
    name of an inherited member, [markdownFiles[path]] is that member: it is
    truthy, so lines 79 to 82 are skipped, and the next thing the call does
    with it, reading [md.slides.length] at line 86, throws. *)
Definition obtainDocument (path : string) : M SlidevMarkdown :=
  let* st := getState in
  match markdownFiles st !! path with
  | Some md => ret md
  | None =>
      if inherited path then throw lengthOfUndefined
      else
        let* raw := callLoadSource path in
        let* md := callParse raw path in
        run modify (setMarkdownFiles <[path := md]>) then
        run modify (setWatchFiles <[path := ∅]>) then
        ret md
  end.

(** The body of [loadMarkdown], lines 71 to 105, over its recursive call
    [recur].  The result is the document as it is in the memo when the call
    returns. *)
Definition loadMarkdownBody
    (recur :
      string → option string → option (gmap string JsValue) →
      option (list SlideRef) → M unit)
    (path : string) (range : option string)
    (frontmatterOverride : option (gmap string JsValue))
    (importers : option (list SlideRef)) : M SlidevMarkdown :=
  let* md := obtainDocument path in
  run forEach (loopBody recur path md frontmatterOverride importers)
        (parseRangeString env (length (md_slides md)) range) then
  let* st := getState in
  ret (default md (markdownFiles st !! path)).

(** [loadMarkdown]: the fuel bounds the depth of nested imports. *)
Fixpoint loadMarkdown (fuel : nat) (path : string) (range : option string)
    (frontmatterOverride : option (gmap string JsValue))
    (importers : option (list SlideRef)) : M SlidevMarkdown :=
  loadMarkdownBody
    (match fuel with
     | O => λ _ _ _ _, diverge
     | S fuel' => λ p r o c, run loadMarkdown fuel' p r o c then ret tt
     end)
    path range frontmatterOverride importers.
End Loader.

Record LoadedSlidevData := {
  data_slides : list SlideInfo;
  data_entry : SlidevMarkdown;
  data_headmatter : gmap string JsValue;
  data_features : Features;
  data_markdownFiles : gmap string SlidevMarkdown;
  data_watchFiles : gmap string (gset nat)
}.

(** [s.source.raw] *)
Definition sourceRaw (st : State) (s : SlideInfo) : string :=
  match markdownFiles st !! (source s).1 ≫= (λ d, md_slides d !! (source s).2) with
  | Some src => slide_raw src
  | None => ""
  end.

(** Lines 165 to 168. *)
Definition headmatterOf (entry : SlidevMarkdown) (out : list SlideInfo)
    : gmap string JsValue :=
  let headmatter :=
    match md_slides entry !! 0 with
    | Some first => slide_frontmatter first
    | None => ∅
    end in
  match out !! 0 ≫= title with
  | Some t =>
      if negb (String.eqb t "") then
        match headmatter !! "title" with
        | None | Some JNull => <["title" := JStr t]> headmatter
        | Some _ => headmatter
        end
      else headmatter
  | None => headmatter
  end.

(** [load], lines 30 to 178. *)
Definition load (env : Env) (userRoot filepath : string) (mode : option string)
    (fuel : nat) : M LoadedSlidevData :=
  let* markdown := callLoadSource env filepath in
  let* extensions := await (preparserExtensions env markdown filepath mode) in
  let* entry :=
    loadMarkdown env userRoot extensions fuel (slash filepath) None None None in
  let* st := getState in
  ret {| data_slides := slides st;
         data_entry := entry;
         data_headmatter := headmatterOf entry (slides st);
         data_features :=
           detectFeatures env
             (foldr String.append "" (sourceRaw st <$> slides st));
         data_markdownFiles := markdownFiles st;
         data_watchFiles := watchFiles st |}.

(** ** A concrete deck

    [/deck/A.md] holds slides [a], an import of [B.md] and [c]; [/deck/B.md]
    holds [b1] and [b2].  The collaborators are small stand-ins: paths are
    joined with [/], a range is absent or a single digit. *)

Module Deck.
Definition rawSlide (file : string) (fm : gmap string JsValue) (line : nat)
    (text : string) : SourceSlideInfo :=
  {| slide_filepath := file; slide_frontmatter := fm; slide_start := line;
     slide_content := text; slide_raw := text; slide_revision := "";
     slide_frontmatterRaw := None; slide_note := None;
     slide_title := None; slide_level := None |}.

Definition document (file : string) (body : list SourceSlideInfo)
    : SlidevMarkdown :=
  {| md_filepath := file; md_raw := file; md_slides := body;
     md_errors := None |}.

Definition docA : SlidevMarkdown :=
  document "/deck/A.md"
    [ rawSlide "/deck/A.md" ∅ 0 "a";
      rawSlide "/deck/A.md" {[ "src" := JStr "B.md" ]} 4 "";
      rawSlide "/deck/A.md" ∅ 8 "c" ].

Definition docB : SlidevMarkdown :=
  document "/deck/B.md"
    [ rawSlide "/deck/B.md" ∅ 0 "b1";
      rawSlide "/deck/B.md" ∅ 4 "b2" ].

Definition files : gmap string SlidevMarkdown :=
  {[ "/deck/A.md" := docA; "/deck/B.md" := docB ]}.

(** [A.md] with a second slide that is disabled and names [B.md], and a
    third that is hidden. *)
Definition switchedOff : gmap string SlidevMarkdown :=
  {[ "/deck/A.md" :=
       document "/deck/A.md"
         [ rawSlide "/deck/A.md" ∅ 0 "a";
           rawSlide "/deck/A.md"
             {[ "disabled" := JBool true; "src" := JStr "B.md" ]} 4 "";
           rawSlide "/deck/A.md" {[ "hide" := JBool true ]} 8 "h";
           rawSlide "/deck/A.md" ∅ 12 "c" ];
     "/deck/B.md" := docB ]}.

(** A single slide whose frontmatter is the YAML line [src:], a null. *)
Definition emptySrc : gmap string SlidevMarkdown :=
  {[ "/deck/A.md" :=
       document "/deck/A.md"
         [ rawSlide "/deck/A.md" {[ "src" := JNull ]} 0 "x" ] ]}.

(** [A.md] importing [B.md] twice, its first slide and then its second. *)
Definition importedTwice : gmap string SlidevMarkdown :=
  {[ "/deck/A.md" :=
       document "/deck/A.md"
         [ rawSlide "/deck/A.md" {[ "src" := JStr "B.md#1" ]} 0 "";
           rawSlide "/deck/A.md" {[ "src" := JStr "B.md#2" ]} 4 "" ];
     "/deck/B.md" := docB ]}.

(** [A.md] = [a, import, import, c], both imports naming the same URL, which
    cannot be fetched. *)
Definition unreachableTwice : gmap string SlidevMarkdown :=
  {[ "/deck/A.md" :=
       document "/deck/A.md"
         [ rawSlide "/deck/A.md" ∅ 0 "a";
           rawSlide "/deck/A.md" {[ "src" := JStr "https://x.test/B.md" ]} 4 "";
           rawSlide "/deck/A.md" {[ "src" := JStr "https://x.test/B.md" ]} 8 "";
           rawSlide "/deck/A.md" ∅ 12 "c" ] ]}.

(** [A.md] = [a, import of a file that is not there, c]. *)
Definition missingImport : gmap string SlidevMarkdown :=
  {[ "/deck/A.md" :=
       document "/deck/A.md"
         [ rawSlide "/deck/A.md" ∅ 0 "a";
           rawSlide "/deck/A.md" {[ "src" := JStr "missing.md" ]} 4 "";
           rawSlide "/deck/A.md" ∅ 8 "c" ] ]}.

(** [A.md] = [a, a slide whose [src] is the number 7, c]. *)
Definition numericSrc : gmap string SlidevMarkdown :=
  {[ "/deck/A.md" :=
       document "/deck/A.md"
         [ rawSlide "/deck/A.md" ∅ 0 "a";
           rawSlide "/deck/A.md" {[ "src" := JNum 7 ]} 4 "";
           rawSlide "/deck/A.md" ∅ 8 "c" ] ]}.

(** Two nested hops: [A.md] imports [B.md], whose first slide imports
    [C.md]. *)
Definition nested : gmap string SlidevMarkdown :=
  {[ "/deck/A.md" :=
       document "/deck/A.md"
         [ rawSlide "/deck/A.md" ∅ 0 "a";
           rawSlide "/deck/A.md" {[ "src" := JStr "B.md" ]} 4 "" ];
     "/deck/B.md" :=
       document "/deck/B.md"
         [ rawSlide "/deck/B.md" {[ "src" := JStr "C.md" ]} 0 "";
           rawSlide "/deck/B.md" ∅ 4 "b" ];
     "/deck/C.md" :=
       document "/deck/C.md" [ rawSlide "/deck/C.md" ∅ 0 "c" ] ]}.

(** [A.md] imports [B.md] with a [layout] and a [class]; the slide of
    [B.md] has a [layout] and a [title] of its own. *)
Definition overriding : gmap string SlidevMarkdown :=
  {[ "/deck/A.md" :=
       document "/deck/A.md"
         [ rawSlide "/deck/A.md"
             {[ "src" := JStr "B.md"; "layout" := JStr "cover";
                "class" := JStr "wide" ]} 0 "" ];
     "/deck/B.md" :=
       document "/deck/B.md"
         [ rawSlide "/deck/B.md"
             {[ "layout" := JStr "default"; "title" := JStr "T" ]} 0 "b" ] ]}.

(** Text before the last [/]. *)
Fixpoint parentDir (s : string) : option string :=
  match s with
  | EmptyString => None
  | String c rest =>
      match parentDir rest with
      | Some d => Some (String c d)
      | None => if Ascii.eqb c slashChar then Some EmptyString else None
      end
  end.

(** The value of a decimal digit. *)
Definition digitOf (c : ascii) : option Z :=
  let n := nat_of_ascii c in
  if (48 <=? n)%nat && (n <=? 57)%nat then Some (Z.of_nat (n - 48)) else None.

(** A stand-in for [parseRangeString]: every slide in order for an absent or
    empty range, the one slide of a single digit when there is such a
    slide. *)
Definition rangeOf (total : nat) (range : option string) : list Z :=
  match range with
  | None | Some EmptyString => Z.of_nat <$> seq 1 total
  | Some (String c EmptyString) =>
      match digitOf c with
      | Some i => if (i <=? Z.of_nat total)%Z then [i] else []
      | None => []
      end
  | Some _ => []
  end.

(** The collaborators over a table of parsed files: a path can be read,
    parsed and found on disk exactly when it is in the table. *)
Definition world (docs : gmap string SlidevMarkdown) : Env :=
  {| loadSource := λ path,
       match docs !! path with
       | Some d => Fulfilled (md_raw d)
       | None =>
           Rejected ("Error: ENOENT: no such file or directory, open '"
                     +:+ path +:+ "'")
       end;
     preparserExtensions := λ _ _ _, Fulfilled None;
     parse := λ _ path _,
       match docs !! path with
       | Some d => Fulfilled d
       | None => Rejected "Error: unparseable"
       end;
     parseRangeString := rangeOf;
     detectFeatures := λ _, [];
     existsSync := λ path, bool_decide (is_Some (docs !! path));
     resolve := λ base rel, base +:+ "/" +:+ rel;
     dirname := λ file, default "." (parentDir file) |}.

(** A stand-in for [parseRangeString] on lists: digits separated by commas,
    in the order written, those beyond the last slide left out; every slide
    in order for an absent or empty range. *)
Definition digitsOf (total : nat) (range : option string) : list Z :=
  match range with
  | None | Some EmptyString => Z.of_nat <$> seq 1 total
  | Some text =>
      List.filter (λ i, (i <=? Z.of_nat total)%Z)
        (omap (λ piece,
                 match piece with
                 | String c EmptyString => digitOf c
                 | _ => None
                 end)
              (split ","%char text))
  end.

(** The collaborators of [world], with ranges that list digits. *)
Definition listing (docs : gmap string SlidevMarkdown) : Env :=
  {| loadSource := loadSource (world docs);
     preparserExtensions := preparserExtensions (world docs);
     parse := parse (world docs);
     parseRangeString := digitsOf;
     detectFeatures := detectFeatures (world docs);
     existsSync := existsSync (world docs);
     resolve := resolve (world docs);
     dirname := dirname (world docs) |}.

(** [A.md] = [import of B.md with the range 0,1,2; c]: position 0 holds no
    slide of [B.md]. *)
Definition emptyIndex : gmap string SlidevMarkdown :=
  {[ "/deck/A.md" :=
       document "/deck/A.md"
         [ rawSlide "/deck/A.md" {[ "src" := JStr "B.md#0,1,2" ]} 0 "";
           rawSlide "/deck/A.md" ∅ 4 "c" ];
     "/deck/B.md" := docB ]}.
End Deck.

(** ** The import tree and its pre-order traversal

    The tree the loader walks: its nodes are the raw slides selected from a
    document, an import directive having as children the slides selected
    from its target, as far as the loop of lines 86 to 102 gets.  The tree
    in the words of the specification is [specForest] below. *)

#[local] Unset Elimination Schemes.
Inductive ImportTree :=
  | Terminal (self : SlideRef) (slide : SourceSlideInfo)
  | Import (self : SlideRef) (slide : SourceSlideInfo)
           (children : list ImportTree)
  | Pruned (self : SlideRef) (slide : SourceSlideInfo).
#[local] Set Elimination Schemes.

(** The raw slide a node stands for. *)
Definition nodeRef (t : ImportTree) : SlideRef :=
  match t with
  | Terminal self _ => self
  | Import self _ _ => self
  | Pruned self _ => self
  end.

Record Leaf := {
  leaf_self : SlideRef;
  leaf_slide : SourceSlideInfo;
  leaf_ancestors : list (SlideRef * SourceSlideInfo)
}.

(** Pre-order traversal, each terminal slide with the import directives above
    it, outermost first. *)
Fixpoint preorder (ancestors : list (SlideRef * SourceSlideInfo))
    (t : ImportTree) : list Leaf :=
  match t with
  | Terminal self slide =>
      [ {| leaf_self := self; leaf_slide := slide;
           leaf_ancestors := ancestors |} ]
  | Import self slide children =>
      flat_map (preorder (ancestors ++ [(self, slide)])) children
  | Pruned _ _ => []
  end.

Definition preorderForest (ancestors : list (SlideRef * SourceSlideInfo))
    (forest : list ImportTree) : list Leaf :=
  flat_map (preorder ancestors) forest.

(** Import depth of each terminal slide, in pre-order. *)
Fixpoint depths (depth : nat) (t : ImportTree) : list nat :=
  match t with
  | Terminal _ _ => [depth]
  | Import _ _ children => flat_map (depths (S depth)) children
  | Pruned _ _ => []
  end.

(** The override mapping handed down through a chain of import directives:
    each directive overlays what it received on its own frontmatter and
    drops [src]. *)
Definition overrideOf (ancestors : list (SlideRef * SourceSlideInfo))
    : option (gmap string JsValue) :=
  foldl (λ override importer,
           Some (delete "src" (spread (slide_frontmatter importer.2) override)))
        None ancestors.

Definition chainOf (ancestors : list (SlideRef * SourceSlideInfo))
    : option (list SlideRef) :=
  match ancestors with
  | [] => None
  | _ => Some (ancestors.*1)
  end.

(** The resolved slide of a leaf emitted at a given position. *)
Definition leafSlide (l : Leaf) (position : nat) : SlideInfo :=
  resolvedSlide (leaf_self l) (leaf_slide l)
    (overrideOf (leaf_ancestors l)) (chainOf (leaf_ancestors l)) position.

Definition emit (base : nat) (leaves : list Leaf) : list SlideInfo :=
  imap (λ i l, leafSlide l (base + i)) leaves.

Section Tree.
Variable env : Env.
Variable userRoot : string.
Variable extensions : option (list SlidevPreparserExtension).

(** What the loader has for a path that is not in the memo: its text,
    parsed; for the name of an inherited member nothing is fetched and the
    call fails on the member it found instead of a document. *)
Definition fetchDocument (path : string) : Settled SlidevMarkdown :=
  if inherited path then Rejected lengthOfUndefined
  else
    match loadSource env path with
    | Fulfilled text => parse env text path extensions
    | Rejected e => Rejected e
    end.

(** The node of one raw slide.  [expand] gives the children of an import
    and how their expansion ended. *)
Definition slideTree
    (expand : string → option string → list ImportTree * Outcome unit)
    (self : SlideRef) (slide : SourceSlideInfo)
    : ImportTree * Outcome unit :=
  let fm := slide_frontmatter slide in
  if truthy (fm !! "disabled") || truthy (fm !! "hide")
  then (Pruned self slide, Returned tt)
  else if truthy (fm !! "src") then
    match fm !! "src" with
    | Some (JStr src) =>
        let path := resolveSrc env userRoot slide (rawPathOf src) in
        if negb (isRemote path) && negb (existsSync env path)
        then (Pruned self slide, Returned tt)
        else let '(children, ended) := expand path (rangeRawOf src) in
             (Import self slide children, ended)
    | _ => (Pruned self slide, Threw splitNotAFunction)
    end
  else (Terminal self slide, Returned tt).

(** The nodes of the selected slides of a document, in the order of the
    selection.  A slide whose expansion failed keeps its place and the
    selection goes on; a selected position that holds no slide ends it. *)
Fixpoint selected (node : Z → option (ImportTree * Outcome unit))
    (indices : list Z) : list ImportTree * Outcome unit :=
  match indices with
  | [] => ([], Returned tt)
  | i :: rest =>
      match node i with
      | None => ([], Threw startOfUndefined)
      | Some (t, Diverged) => ([t], Diverged)
      | Some (t, _) =>
          let '(ts, ended) := selected node rest in (t :: ts, ended)
      end
  end.

(** The forest of a document: the nodes of the slides its range selects. *)
Definition expandDocument
    (expand : string → option string → list ImportTree * Outcome unit)
    (path : string) (range : option string)
    : list ImportTree * Outcome unit :=
  match fetchDocument path with
  | Rejected e => ([], Threw e)
  | Fulfilled md =>
      selected
        (λ i, slideTree expand (path, Z.to_nat (i - 1)) <$> slideAt md i)
        (parseRangeString env (length (md_slides md)) range)
  end.

Fixpoint docForest (fuel : nat) (path : string) (range : option string)
    : list ImportTree * Outcome unit :=
  expandDocument
    (match fuel with
     | O => λ _ _, ([], Diverged)
     | S fuel' => docForest fuel'
     end)
    path range.
End Tree.

(** The import tree of an entry file: nothing when the text of the entry
    or its extensions cannot be had. *)
Definition entryForest (env : Env) (userRoot filepath : string)
    (mode : option string) (fuel : nat) : list ImportTree :=
  match loadSource env filepath with
  | Fulfilled markdown =>
      match preparserExtensions env markdown filepath mode with
      | Fulfilled extensions =>
          (docForest env userRoot extensions fuel (slash filepath) None).1
      | Rejected _ => []
      end
  | Rejected _ => []
  end.

(** The extensions [load] parses with; none when it does not get that far. *)
Definition extensionsOf (env : Env) (filepath : string) (mode : option string)
    : option (list SlidevPreparserExtension) :=
  match loadSource env filepath with
  | Fulfilled markdown =>
      match preparserExtensions env markdown filepath mode with
      | Fulfilled extensions => extensions
      | Rejected _ => None
      end
  | Rejected _ => None
  end.

(** The raw slide a reference denotes. *)
Definition rawSlideAt (env : Env)
    (extensions : option (list SlidevPreparserExtension)) (ref : SlideRef)
    : option SourceSlideInfo :=
  match fetchDocument env extensions ref.1 with
  | Fulfilled md => md_slides md !! ref.2
  | Rejected _ => None
  end.

(** Neither [disabled] nor [hide] is truthy in the slide's own frontmatter. *)
Definition enabled (slide : SourceSlideInfo) : Prop :=
  truthy (slide_frontmatter slide !! "disabled") = false
  ∧ truthy (slide_frontmatter slide !! "hide") = false.

(** An import directive: an enabled raw slide with a truthy [src]. *)
Definition isImport (env : Env)
    (extensions : option (list SlidevPreparserExtension))
    (a : SlideRef * SourceSlideInfo) : Prop :=
  rawSlideAt env extensions a.1 = Some a.2
  ∧ enabled a.2
  ∧ truthy (slide_frontmatter a.2 !! "src") = true.

(** A terminal slide under import directives. *)
Definition isTerminal (env : Env)
    (extensions : option (list SlidevPreparserExtension)) (l : Leaf) : Prop :=
  rawSlideAt env extensions (leaf_self l) = Some (leaf_slide l)
  ∧ enabled (leaf_slide l)
  ∧ truthy (slide_frontmatter (leaf_slide l) !! "src") = false
  ∧ Forall (isImport env extensions) (leaf_ancestors l).

(** The run [m'] does what the run [m] does wherever [m] ends. *)
Definition agrees {A} (m m' : M A) : Prop :=
  ∀ st, (m st).1 ≠ Diverged → m' st = m st.

(** How often [path] occurs in a call log. *)
Definition calls (path : string) (log : list string) : nat :=
  count_occ string_dec log path.

(** 1 when [path] is in the memo, 0 otherwise. *)
Definition memoized (st : State) (path : string) : nat :=
  if decide (is_Some (markdownFiles st !! path)) then 1 else 0.

(** Two runs end alike. *)
Definition sameEnd {A B} (o : Outcome A) (ended : Outcome B) : Prop :=
  match o, ended with
  | Returned _, Returned _ => True
  | Threw e, Threw e' => e = e'
  | Diverged, Diverged => True
  | _, _ => False
  end.

(** ** Reasoning about [M]: weakest preconditions *)

Definition wp {A} (m : M A) (st : State) (Q : Outcome A → State → Prop) : Prop :=
  Q (m st).1 (m st).2.

(** ** Invariants of a run *)

Section Invariants.
Variable env : Env.
Variable extensions : option (list SlidevPreparserExtension).
(** the calls of [loadSource] made before the loader started *)
Variable before : list string.

(** A memoized document has the slides its path denotes. *)
Definition memoSound (st : State) : Prop :=
  ∀ path md, markdownFiles st !! path = Some md →
    ∃ md0, fetchDocument env extensions path = Fulfilled md0
           ∧ md_slides md = md_slides md0.

(** A path that can be fetched and parsed has been, once, exactly when it
    is in the memo. *)
Definition logsSound (st : State) : Prop :=
  ∀ path md0, fetchDocument env extensions path = Fulfilled md0 →
    calls path (parseCalls st) = memoized st path
    ∧ calls path (sourceCalls st) = calls path before + memoized st path.

Definition loaderInv (st : State) : Prop := memoSound st ∧ logsSound st.

(** What a call of the loader on a path, under the import directives
    [ancestors], leaves behind, given the forest of that call. *)
Definition loaderPost {A} (ancestors : list (SlideRef * SourceSlideInfo))
    (expansion : list ImportTree * Outcome unit) (st : State)
    (o : Outcome A) (st' : State) : Prop :=
  loaderInv st'
  ∧ slides st' =
      slides st ++ emit (length (slides st))
                        (preorderForest ancestors expansion.1)
  ∧ sameEnd o expansion.2
  ∧ ∃ more, sourceCalls st' = sourceCalls st ++ more.

(** The recursive call [recur] does what the expansion [expand] says. *)
Definition recurSound
    (recur : string → option string → option (gmap string JsValue) →
             option (list SlideRef) → M unit)
    (expand : string → option string → list ImportTree * Outcome unit)
    : Prop :=
  ∀ ancestors path range st, loaderInv st →
    wp (recur path range (overrideOf ancestors) (chainOf ancestors)) st
       (loaderPost ancestors (expand path range) st).
End Invariants.

(** The world of a table of files, with a feature detector that hands back
    the text it is given. *)
Definition echoingWorld (docs : gmap string SlidevMarkdown) : Env :=
  {| loadSource := loadSource (Deck.world docs);
     preparserExtensions := preparserExtensions (Deck.world docs);
     parse := parse (Deck.world docs);
     parseRangeString := parseRangeString (Deck.world docs);
     detectFeatures := λ text, [text];
     existsSync := existsSync (Deck.world docs);
     resolve := resolve (Deck.world docs);
     dirname := dirname (Deck.world docs) |}.

(** [A.md] whose first slide is hidden and has a [theme]; the first slide of
    the output is [b] of [B.md], titled [Hello]. *)
Definition titledDeck : gmap string SlidevMarkdown :=
  {[ "/deck/A.md" :=
       Deck.document "/deck/A.md"
         [ Deck.rawSlide "/deck/A.md"
             {[ "hide" := JBool true; "theme" := JStr "seriph" ]} 0 "h";
           Deck.rawSlide "/deck/A.md" {[ "src" := JStr "B.md" ]} 4 "" ];
     "/deck/B.md" :=
       Deck.document "/deck/B.md"
         [ {| slide_filepath := "/deck/B.md"; slide_frontmatter := ∅;
              slide_start := 0; slide_content := "b"; slide_raw := "b";
              slide_revision := ""; slide_frontmatterRaw := None;
              slide_note := None; slide_title := Some "Hello";
              slide_level := Some 1 |} ] ]}.

#[global] Instance enabled_dec slide : Decision (enabled slide).
Proof. unfold enabled. apply _. Defined.



(** [dropWhile] and [takeWhile not] on lists. *)
Fixpoint dropWhileUnits {A} (p : A → bool) (l : list A) : list A :=
  match l with
  | [] => []
  | x :: rest => if p x then dropWhileUnits p rest else l
  end.

Fixpoint takeUntil {A} (p : A → bool) (l : list A) : list A :=
  match l with
  | [] => []
  | x :: rest => if p x then [] else x :: takeUntil p rest
  end.

(** ** [save], lines 180 to 185

    The disk is a map from paths to texts; [writeFile] overwrites, or rejects
    with the error [writeError] gives for the path.  [stringify] is a
    parameter. *)



(** ** The headmatter scan, lines 55 to 62

    The text is a list of UTF-16 code units, as the regular expressions see
    it. *)

Definition lineFeed : N := 10.
Definition carriageReturn : N := 13.
Definition dash : N := 45.

(** What [.] does not match. *)
Definition lineTerminator (c : N) : bool :=
  (c =? 10)%N || (c =? 13)%N || (c =? 8232)%N || (c =? 8233)%N.

(** The class [\s], which is also what [trimEnd] strips. *)
Definition whiteSpace (c : N) : bool :=
  (c =? 9)%N || (c =? 10)%N || (c =? 11)%N || (c =? 12)%N || (c =? 13)%N
  || (c =? 32)%N || (c =? 160)%N || (c =? 5760)%N
  || ((8192 <=? c)%N && (c <=? 8202)%N)
  || (c =? 8232)%N || (c =? 8233)%N || (c =? 8239)%N || (c =? 8287)%N
  || (c =? 12288)%N || (c =? 65279)%N.

Definition prependUnit (c : N) (pieces : list (list N)) : list (list N) :=
  match pieces with
  | piece :: more => (c :: piece) :: more
  | [] => [[c]]
  end.

(** [markdown.split(/\r?\n/g)] *)
Fixpoint splitLines (s : list N) : list (list N) :=
  match s with
  | [] => [[]]
  | c :: rest =>
      if (c =? lineFeed)%N then [] :: splitLines rest
      else match rest with
           | c' :: rest' =>
               if (c =? carriageReturn)%N && (c' =? lineFeed)%N
               then [] :: splitLines rest'
               else prependUnit c (splitLines rest)
           | [] => prependUnit c (splitLines rest)
           end
  end.

(** [lines.join('\n')] *)
Fixpoint joinLines (lines : list (list N)) : list N :=
  match lines with
  | [] => []
  | [line] => line
  | line :: more => line ++ lineFeed :: joinLines more
  end.

(** The first test of line 57: three dashes, then nothing more, or one unit
    that is not a dash followed by units that are not line terminators. *)
Definition opensHeadmatter (line : list N) : bool :=
  match line with
  | a :: b :: c :: tail =>
      (a =? dash)%N && (b =? dash)%N && (c =? dash)%N
      && match tail with
         | [] => true
         | d :: more =>
             negb (d =? dash)%N && forallb (λ u, negb (lineTerminator u)) more
         end
  | _ => false
  end.

(** [line.match(/^\s*$/)] *)
Definition blankLine (line : list N) : bool := forallb whiteSpace line.

(** [line.trimEnd()] *)
Definition trimEnd (line : list N) : list N :=
  reverse (dropWhileUnits whiteSpace (reverse line)).

(** [line.trimEnd().match(/^---$/)] *)
Definition closesHeadmatter (line : list N) : bool :=
  bool_decide (trimEnd line = [dash; dash; dash]).

(** Lines 55 to 62: the text [hm] handed to the YAML parser. *)
Definition headmatterText (markdown : list N) : list N :=
  let lines := splitLines markdown in
  if opensHeadmatter (default [] (lines !! 0))
     && negb (from_option blankLine false (lines !! 1))
  then joinLines (takeUntil closesHeadmatter (drop 1 lines))
  else [].

(** A line that [splitLines] gives back whole: no line feed in it, no
    carriage return at its end. *)
Definition wholeLine (line : list N) : Prop :=
  (lineFeed ∉ line) ∧ (last line ≠ Some carriageReturn).

#[global] Instance wholeLine_dec line : Decision (wholeLine line).
Proof. unfold wholeLine. apply _. Defined.

(** ** The import tree of the specification

    The tree as the specification words it: the children of a document are
    the slides its range selects, each import directive is expanded in place
    by the slides selected from its target, and nothing that goes wrong at
    one slide takes its siblings away.  A selected position that holds no
    slide gives no node; an import whose target cannot be had has no
    children.  The path and the range of a directive are read off [src] as
    the loader reads them. *)

Section SpecTree.
Variable env : Env.
Variable userRoot : string.
Variable extensions : option (list SlidevPreparserExtension).

Definition specSlideTree (expand : string → option string → list ImportTree)
    (self : SlideRef) (slide : SourceSlideInfo) : ImportTree :=
  let fm := slide_frontmatter slide in
  if truthy (fm !! "disabled") || truthy (fm !! "hide") then Pruned self slide
  else if truthy (fm !! "src") then
    match fm !! "src" with
    | Some (JStr src) =>
        let path := resolveSrc env userRoot slide (rawPathOf src) in
        if negb (isRemote path) && negb (existsSync env path)
        then Pruned self slide
        else Import self slide (expand path (rangeRawOf src))
    | _ => Pruned self slide
    end
  else Terminal self slide.

Definition specExpand (expand : string → option string → list ImportTree)
    (path : string) (range : option string) : list ImportTree :=
  match fetchDocument env extensions path with
  | Rejected _ => []
  | Fulfilled md =>
      omap (λ i, specSlideTree expand (path, Z.to_nat (i - 1)) <$> slideAt md i)
           (parseRangeString env (length (md_slides md)) range)
  end.

(** The tree down to [depth] nested imports. *)
Fixpoint specForest (depth : nat) (path : string) (range : option string)
    : list ImportTree :=
  specExpand
    (match depth with
     | O => λ _ _, []
     | S depth' => specForest depth'
     end)
    path range.

(** Every position the loader selects, in the document at [path] and in the
    targets of the imports it follows from there, holds a slide. *)
Definition slideInRange (recur : string → option string → bool)
    (slide : SourceSlideInfo) : bool :=
  let fm := slide_frontmatter slide in
  if truthy (fm !! "disabled") || truthy (fm !! "hide") then true
  else if truthy (fm !! "src") then
    match fm !! "src" with
    | Some (JStr src) =>
        let path := resolveSrc env userRoot slide (rawPathOf src) in
        if negb (isRemote path) && negb (existsSync env path) then true
        else recur path (rangeRawOf src)
    | _ => true
    end
  else true.

Definition documentInRange (recur : string → option string → bool)
    (path : string) (range : option string) : bool :=
  match fetchDocument env extensions path with
  | Rejected _ => true
  | Fulfilled md =>
      forallb (λ i, from_option (slideInRange recur) false (slideAt md i))
              (parseRangeString env (length (md_slides md)) range)
  end.

Fixpoint indicesHoldSlides (depth : nat) (path : string)
    (range : option string) : bool :=
  documentInRange
    (match depth with
     | O => λ _ _, true
     | S depth' => indicesHoldSlides depth'
     end)
    path range.
End SpecTree.

(** The tree of an entry file: nothing when the text of the entry or its
    extensions cannot be had. *)
Definition specEntryForest (env : Env) (userRoot filepath : string)
    (mode : option string) (depth : nat) : list ImportTree :=
  match loadSource env filepath with
  | Fulfilled markdown =>
      match preparserExtensions env markdown filepath mode with
      | Fulfilled extensions =>
          specForest env userRoot extensions depth (slash filepath) None
      | Rejected _ => []
      end
  | Rejected _ => []
  end.

(** ** More invariants of a run *)

(** A path the loader may read: remote, or found on disk. *)
Definition checked (env : Env) (path : string) : Prop :=
  isRemote path = true ∨ existsSync env path = true.

(** Each output slide that came through an import is listed in the
    [imports] of the last directive of its chain. *)
Definition traceable (st : State) : Prop :=
  ∀ s chain importer,
    s ∈ slides st → importChain s = Some chain →
    last chain = Some importer →
    source s ∈ default [] (slideImports st !! importer).

(** Each memoized document has a watch set, empty, and nothing else has. *)
Definition watched (st : State) : Prop :=
  watchFiles st = (λ _, ∅) <$> markdownFiles st.

(** A memoized document is the parsed one, but for errors added after those
    of the parser. *)
Definition memoFaithful (env : Env)
    (extensions : option (list SlidevPreparserExtension)) (st : State) : Prop :=
  ∀ path md, markdownFiles st !! path = Some md →
    ∃ md0, fetchDocument env extensions path = Fulfilled md0
           ∧ md_filepath md = md_filepath md0
           ∧ md_raw md = md_raw md0
           ∧ md_slides md = md_slides md0
           ∧ default [] (md_errors md0) `prefix_of` default [] (md_errors md).

(** The [source] of each output slide is a slide of a memoized document. *)
Definition sourcesInMemo (st : State) : Prop :=
  ∀ s, s ∈ slides st →
    ∃ md slide, markdownFiles st !! (source s).1 = Some md
                ∧ md_slides md !! (source s).2 = Some slide.

(** [existsSync] was only asked about local paths in forward-slash form. *)
Definition onlyLocalChecked (st : State) : Prop :=
  Forall (λ path, isRemote path = false ∧ occurs backslashChar path = false)
         (existsCalls st).

Definition runInv (env : Env)
    (extensions : option (list SlidevPreparserExtension)) (st : State) : Prop :=
  memoFaithful env extensions st ∧ watched st ∧ onlyLocalChecked st
  ∧ traceable st ∧ sourcesInMemo st.

(** The memo only grows. *)
Definition keeps (st st' : State) : Prop :=
  ∀ path, is_Some (markdownFiles st !! path) →
          is_Some (markdownFiles st' !! path).

(** The calls of [loadSource] made from [st] to [st'], after [first], were
    all for checked paths. *)
Definition fetchedChecked (env : Env) (first : list string) (st st' : State)
    : Prop :=
  ∃ more, sourceCalls st' = sourceCalls st ++ first ++ more
          ∧ Forall (checked env) more.

(** The recursive call keeps the invariants and reads checked paths only. *)
Definition recurKeeps (env : Env)
    (extensions : option (list SlidevPreparserExtension))
    (recur : string → option string → option (gmap string JsValue) →
             option (list SlideRef) → M unit) : Prop :=
  ∀ path range override chain st,
    runInv env extensions st → checked env path →
    wp (recur path range override chain) st
       (λ _ st', runInv env extensions st' ∧ keeps st st'
                 ∧ fetchedChecked env [] st st').

(** ** Rules of the weakest precondition *)

Lemma wp_run {A} (m : M A) st o st' Q :
  m st = (o, st') → wp m st Q → Q o st'.
Proof. unfold wp. by intros ->. Qed.

Lemma wp_mono {A} (m : M A) st (Q Q' : Outcome A → State → Prop) :
  wp m st Q → (∀ o st', Q o st' → Q' o st') → wp m st Q'.
Proof. unfold wp. auto. Qed.

Lemma wp_and {A} (m : M A) st (Q Q' : Outcome A → State → Prop) :
  wp m st Q → wp m st Q' → wp m st (λ o st', Q o st' ∧ Q' o st').
Proof. by split. Qed.

Lemma wp_ret {A} (a : A) st Q : Q (Returned a) st → wp (ret a) st Q.
Proof. done. Qed.

Lemma wp_throw {A} e st (Q : Outcome A → State → Prop) :
  Q (Threw e) st → wp (throw e) st Q.
Proof. done. Qed.

Lemma wp_diverge {A} st (Q : Outcome A → State → Prop) :
  Q Diverged st → wp diverge st Q.
Proof. done. Qed.

Lemma wp_getState st Q : Q (Returned st) st → wp getState st Q.
Proof. done. Qed.

Lemma wp_modify f st Q : Q (Returned tt) (f st) → wp (modify f) st Q.
Proof. done. Qed.

Lemma wp_await {A} (r : Settled A) st Q :
  match r with
  | Fulfilled a => Q (Returned a) st
  | Rejected e => Q (Threw e) st
  end → wp (await r) st Q.
Proof. by destruct r. Qed.

Lemma wp_bind {A B} (m : M A) (k : A → M B) st Q :
  wp m st (λ o st',
    match o with
    | Returned a => wp (k a) st' Q
    | Threw e => Q (Threw e) st'
    | Diverged => Q Diverged st'
    end) →
  wp (bind m k) st Q.
Proof. unfold wp, bind. by destruct (m st) as [[a|e|] st']. Qed.

Lemma wp_tryCatch {A} (body : M A) handler st Q :
  wp body st (λ o st',
    match o with
    | Threw e => wp (handler e) st' Q
    | _ => Q o st'
    end) →
  wp (tryCatch body handler) st Q.
Proof. unfold wp, tryCatch. by destruct (body st) as [[a|e|] st']. Qed.

(** ** The loader builds the pre-order traversal of the import tree *)

Section Refinement.
Variable env : Env.
Variable userRoot : string.
Variable extensions : option (list SlidevPreparserExtension).
Variable before : list string.

Abbreviation Inv := (loaderInv env extensions before).
Abbreviation Post := (loaderPost env extensions before).

Lemma emit_app base l1 l2 :
  emit base (l1 ++ l2) = emit base l1 ++ emit (base + length l1) l2.
Proof.
  unfold emit. rewrite imap_app. f_equal.
  apply imap_ext. intros i l _. simpl. f_equal. lia.
Qed.

Lemma length_emit base l : length (emit base l) = length l.
Proof. unfold emit. by rewrite length_imap. Qed.

Lemma overrideOf_snoc ancestors self slide :
  overrideOf (ancestors ++ [(self, slide)]) =
  Some (delete "src" (spread (slide_frontmatter slide) (overrideOf ancestors))).
Proof. unfold overrideOf. by rewrite foldl_app. Qed.

Lemma chainOf_snoc ancestors (self : SlideRef) (slide : SourceSlideInfo) :
  chainOf (ancestors ++ [(self, slide)]) =
  Some (match chainOf ancestors with
        | Some chain => chain ++ [self]
        | None => [self]
        end).
Proof.
  destruct ancestors as [|a l]; [done|].
  simpl. by rewrite fmap_app.
Qed.

Lemma loaderInv_frame st st' :
  markdownFiles st' = markdownFiles st →
  sourceCalls st' = sourceCalls st →
  parseCalls st' = parseCalls st →
  Inv st → Inv st'.
Proof.
  intros Hm Hs Hp [Hmemo Hlogs]. split.
  - intros path md. rewrite Hm. apply Hmemo.
  - intros path md0 Hf. unfold memoized. rewrite Hm, Hs, Hp.
    by apply (Hlogs path md0).
Qed.

Lemma loaderInv_errors st md f :
  (∀ d, md_slides (f d) = md_slides d) →
  Inv st → Inv (setMarkdownFiles (alter f md) st).
Proof.
  intros Hf [Hmemo Hlogs]. split.
  - intros path d. simpl. rewrite lookup_alter.
    case_decide as Heq; [|apply Hmemo].
    subst path. destruct (markdownFiles st !! md) as [d0|] eqn:Hd; [|done].
    simpl. intros [= <-]. destruct (Hmemo _ _ Hd) as (md0 & ? & ?).
    exists md0. split; [done|]. by rewrite Hf.
  - intros path md0 Hfetch. simpl.
    destruct (Hlogs _ _ Hfetch) as [Hp Hs].
    assert (memoized (setMarkdownFiles (alter f md) st) path = memoized st path)
      as ->; [|done].
    unfold memoized. simpl.
    assert (is_Some (alter f md (markdownFiles st) !! path)
            ↔ is_Some (markdownFiles st !! path)) as Hiff.
    { rewrite lookup_alter. case_decide; [|done]. subst.
      by rewrite fmap_is_Some. }
    do 2 case_decide; tauto || done.
Qed.

(** A step that leaves the output alone and keeps the invariant. *)
Lemma loaderPost_silent {A} ancestors ended (o : Outcome A) st st' :
  Inv st' → slides st' = slides st → sameEnd o ended →
  (∃ more, sourceCalls st' = sourceCalls st ++ more) →
  Post ancestors ([], ended) st o st'.
Proof.
  intros HI Hs He Hc. split_and!; try done.
  simpl. by rewrite Hs, app_nil_r.
Qed.

Lemma loaderPost_pruned {A} ancestors self slide ended (o : Outcome A) st st' :
  Inv st' → slides st' = slides st → sameEnd o ended →
  (∃ more, sourceCalls st' = sourceCalls st ++ more) →
  Post ancestors ([Pruned self slide], ended) st o st'.
Proof.
  intros HI Hs He Hc. split_and!; try done.
  simpl. by rewrite Hs, app_nil_r.
Qed.

Lemma loadSlide_sound recur expand md self slide ancestors st :
  recurSound env extensions before recur expand → Inv st →
  wp (loadSlide env userRoot recur md self slide
        (overrideOf ancestors) (chainOf ancestors)) st
     (Post ancestors
        (let '(t, ended) := slideTree env userRoot expand self slide in
         ([t], ended)) st).
Proof.
  intros Hrec HI. unfold loadSlide, slideTree.
  destruct (truthy (slide_frontmatter slide !! "disabled")
            || truthy (slide_frontmatter slide !! "hide")) eqn:Hskip.
  { apply wp_ret, loaderPost_pruned; try done. by exists []; rewrite app_nil_r. }
  destruct (truthy (slide_frontmatter slide !! "src")) eqn:Hsrc.
  - destruct (slide_frontmatter slide !! "src") as [[| | |src|]|] eqn:Hv;
      try (apply wp_throw, loaderPost_pruned; try done;
           by exists []; rewrite app_nil_r).
    set (path := resolveSrc env userRoot slide _).
    apply wp_bind.
    destruct (isRemote path) eqn:Hremote; simpl.
    + apply wp_ret.
      destruct (expand path (rangeRawOf src)) as [children ended] eqn:Hex.
      eapply wp_mono.
      { rewrite <- (overrideOf_snoc ancestors self slide), <- (chainOf_snoc ancestors self slide). by apply Hrec. }
      rewrite Hex. intros o st' (HI' & Hs & He & Hc). split_and!; try done.
      simpl. rewrite app_nil_r. exact Hs.
    + apply wp_bind, wp_bind, wp_modify, wp_ret, wp_ret.
      assert (Inv (logExists path st)) as HI1 by (by eapply loaderInv_frame).
      destruct (existsSync env path) eqn:Hex; simpl.
      * destruct (expand path (rangeRawOf src)) as [children ended] eqn:Hx.
        eapply wp_mono.
        { rewrite <- (overrideOf_snoc ancestors self slide), <- (chainOf_snoc ancestors self slide). by apply Hrec. }
        rewrite Hx. intros o st' (HI' & Hs & He & Hc). split_and!; try done.
        simpl. rewrite app_nil_r. exact Hs.
      * apply wp_modify, loaderPost_pruned; try done.
        -- by apply loaderInv_errors.
        -- by exists []; rewrite app_nil_r.
  - apply wp_bind, wp_getState, wp_modify. split_and!.
    + by eapply loaderInv_frame.
    + simpl. unfold emit, leafSlide. simpl. by rewrite Nat.add_0_r.
    + done.
    + by exists []; rewrite app_nil_r.
Qed.

Lemma loadSubSlide_sound recur expand path self subSlide ancestors st :
  recurSound env extensions before recur expand → Inv st →
  wp (loadSubSlide env userRoot recur path (overrideOf ancestors)
        (chainOf ancestors) self subSlide) st
     (λ o st',
        let '(t, ended) := slideTree env userRoot expand self subSlide in
        Inv st'
        ∧ slides st' =
            slides st ++ emit (length (slides st)) (preorder ancestors t)
        ∧ o = match ended with Diverged => Diverged | _ => Returned tt end
        ∧ ∃ more, sourceCalls st' = sourceCalls st ++ more).
Proof.
  intros Hrec HI. unfold loadSubSlide.
  apply wp_bind, wp_tryCatch, wp_bind.
  eapply wp_mono; [by apply (loadSlide_sound recur expand)|].
  destruct (slideTree env userRoot expand self subSlide) as [t ended].
  intros o st1 (HI1 & Hs & He & Hc). simpl in Hs. rewrite app_nil_r in Hs.
  destruct o as [[]|e|], ended as [[]|e'|]; simpl in He; try done.
  - apply wp_ret.
    destruct (chainOf ancestors ≫= last) as [directImporter|].
    + apply wp_modify. split_and!; [by eapply loaderInv_frame|done..].
    + by apply wp_ret.
  - apply wp_bind, wp_modify, wp_ret, wp_ret.
    split_and!; [by apply loaderInv_errors|done..].
Qed.

Lemma loop_sound recur expand path md ancestors indices st :
  recurSound env extensions before recur expand → Inv st →
  wp (forEach (loopBody env userRoot recur path md (overrideOf ancestors)
                 (chainOf ancestors)) indices) st
     (Post ancestors
        (selected
           (λ i, slideTree env userRoot expand (path, Z.to_nat (i - 1))
                   <$> slideAt md i) indices) st).
Proof.
  intros Hrec. revert st. induction indices as [|i rest IH]; intros st HI.
  { apply wp_ret, loaderPost_silent; try done. by exists []; rewrite app_nil_r. }
  simpl. apply wp_bind. unfold loopBody at 1.
  destruct (slideAt md i) as [subSlide|]; simpl.
  - eapply wp_mono; [by apply (loadSubSlide_sound recur expand)|].
    destruct (slideTree env userRoot expand (path, Z.to_nat (i - 1)) subSlide)
      as [t ended].
    intros o st1 (HI1 & Hs & -> & [more Hc]).
    assert (∀ o2 st2,
      Post ancestors
        (selected
           (λ i, slideTree env userRoot expand (path, Z.to_nat (i - 1))
                   <$> slideAt md i) rest) st1 o2 st2 →
      Post ancestors
        (let '(ts, ended') :=
           selected
             (λ i, slideTree env userRoot expand (path, Z.to_nat (i - 1))
                     <$> slideAt md i) rest in (t :: ts, ended')) st
        (o2 : Outcome unit) st2) as Hstep.
    { intros o2 st2. destruct (selected _ rest) as [ts ended'].
      intros (HI2 & Hs2 & He2 & [more2 Hc2]). split_and!; try done.
      - simpl in *. rewrite Hs2, Hs, emit_app, length_app, length_emit.
        by rewrite <- app_assoc.
      - exists (more ++ more2). by rewrite Hc2, Hc, app_assoc. }
    destruct ended as [[]|e|].
    + eapply wp_mono; [by apply IH | exact Hstep].
    + eapply wp_mono; [by apply IH | exact Hstep].
    + split_and!; try done.
      * simpl. by rewrite app_nil_r.
      * by exists more.
  - apply wp_bind, wp_modify, wp_throw, loaderPost_silent; try done.
    + by apply loaderInv_errors.
    + by exists []; rewrite app_nil_r.
Qed.

Lemma calls_snoc q p log :
  calls q (log ++ [p]) = calls q log + (if decide (p = q) then 1 else 0).
Proof.
  unfold calls. rewrite count_occ_app. simpl.
  destruct (string_dec p q), (decide (p = q)); done.
Qed.

Lemma obtainDocument_sound path st :
  Inv st →
  wp (obtainDocument env extensions path) st
     (λ o st',
        Inv st' ∧ slides st' = slides st
        ∧ sourceCalls st' =
            sourceCalls st ++
            (if decide (is_Some (markdownFiles st !! path)) then []
             else if inherited path then [] else [path])
        ∧ match o with
          | Returned md =>
              ∃ md0, fetchDocument env extensions path = Fulfilled md0
                     ∧ md_slides md = md_slides md0
          | Threw e => fetchDocument env extensions path = Rejected e
          | Diverged => False
          end).
Proof.
  intros HI. unfold obtainDocument. apply wp_bind, wp_getState.
  destruct (markdownFiles st !! path) as [md|] eqn:Hmemo.
  { apply wp_ret. split_and!; try done.
    - rewrite decide_True by done. by rewrite app_nil_r.
    - by apply (proj1 HI path). }
  rewrite decide_False by (by intros []).
  unfold fetchDocument.
  destruct (inherited path) eqn:Hown.
  { apply wp_throw. split_and!; try done. by rewrite app_nil_r. }
  unfold callLoadSource, callParse.
  apply wp_bind, wp_bind, wp_modify, wp_await.
  destruct HI as [Hm Hl].
  destruct (loadSource env path) as [text|e] eqn:Hsrc.
  2:{ split_and!; try done. split; [done|].
      intros q md0 Hq. destruct (Hl q md0 Hq) as [Hp Hs]. simpl.
      assert (path ≠ q) as Hne.
      { intros ->. unfold fetchDocument in Hq. by rewrite Hown, Hsrc in Hq. }
      rewrite calls_snoc, decide_False by done.
      unfold memoized in *. simpl. lia. }
  apply wp_bind, wp_bind, wp_modify, wp_await.
  destruct (parse env text path extensions) as [md|e] eqn:Hparse.
  2:{ split_and!; try done. split; [done|].
      intros q md0 Hq. destruct (Hl q md0 Hq) as [Hp Hs]. simpl.
      assert (path ≠ q) as Hne.
      { intros ->. unfold fetchDocument in Hq. rewrite Hown, Hsrc in Hq.
        congruence. }
      rewrite !calls_snoc, decide_False by done.
      unfold memoized in *. simpl. lia. }
  apply wp_bind, wp_modify, wp_bind, wp_modify, wp_ret.
  split_and!; try done; [|by exists md].
  split.
  - intros q d. simpl. rewrite lookup_insert. case_decide as Heq.
    + subst q. intros [= <-]. exists md. unfold fetchDocument.
      by rewrite Hown, Hsrc.
    + apply Hm.
  - intros q md0 Hq. destruct (Hl q md0 Hq) as [Hp Hs]. simpl.
    rewrite !calls_snoc. unfold memoized in *. simpl.
    rewrite lookup_insert. destruct (decide (path = q)) as [->|Hne].
    + rewrite Hmemo in Hp, Hs. rewrite decide_False in Hp, Hs by (by intros []).
      rewrite decide_True by done. lia.
    + lia.
Qed.

Lemma loadMarkdownBody_sound recur expand ancestors path range st :
  recurSound env extensions before recur expand → Inv st →
  wp (loadMarkdownBody env userRoot extensions recur path range
        (overrideOf ancestors) (chainOf ancestors)) st
     (λ o st',
        Post ancestors
             (expandDocument env userRoot extensions expand path range)
             st o st'
        ∧ (markdownFiles st !! path = None →
           if inherited path then sourceCalls st' = sourceCalls st
           else ∃ more, sourceCalls st' = sourceCalls st ++ path :: more
                        ∧ ∀ e, fetchDocument env extensions path = Rejected e →
                               more = [])).
Proof.
  intros Hrec HI. unfold loadMarkdownBody, expandDocument.
  apply wp_bind.
  eapply wp_mono; [by apply obtainDocument_sound|].
  intros [md|e|] st1 (HI1 & Hs1 & Hc1 & Hdoc); try done.
  - destruct Hdoc as (md0 & Hfetch & Hslides). rewrite Hfetch.
    apply wp_bind.
    eapply wp_mono; [by apply (loop_sound recur expand)|].
    unfold slideAt. rewrite Hslides.
    destruct (selected _ _) as [forest ended].
    intros o st2 (HI2 & Hs2 & He2 & [more Hc2]).
    assert (Post ancestors (forest, ended) st o st2
            ∧ (markdownFiles st !! path = None →
               if inherited path then sourceCalls st2 = sourceCalls st
               else ∃ more, sourceCalls st2 = sourceCalls st ++ path :: more
                            ∧ ∀ e, Fulfilled md0 = Rejected e → more = []))
      as [HP Hfirst].
    { split; [split_and!; try done|].
      - by rewrite Hs2, Hs1.
      - eexists. by rewrite Hc2, Hc1, <- app_assoc.
      - intros Hnone. unfold fetchDocument in Hfetch.
        destruct (inherited path); [done|]. rewrite Hc2, Hc1, Hnone.
        rewrite decide_False by (by intros []).
        exists more. by rewrite <- app_assoc. }
    destruct o as [[]|e|]; [|done..].
    apply wp_bind, wp_getState, wp_ret. split; [|done].
    destruct HP as (? & ? & ? & ?). by split_and!.
  - rewrite Hdoc. split.
    + apply loaderPost_silent; try done. eexists. by rewrite Hc1.
    + intros Hnone. rewrite Hc1, Hnone.
      rewrite decide_False by (by intros []).
      destruct (inherited path); [by rewrite app_nil_r|by exists []].
Qed.

Lemma loadMarkdown_sound fuel :
  ∀ ancestors path range st, Inv st →
    wp (loadMarkdown env userRoot extensions fuel path range
          (overrideOf ancestors) (chainOf ancestors)) st
       (λ o st',
          Post ancestors (docForest env userRoot extensions fuel path range)
               st o st'
          ∧ (markdownFiles st !! path = None →
             if inherited path then sourceCalls st' = sourceCalls st
             else ∃ more, sourceCalls st' = sourceCalls st ++ path :: more
                          ∧ ∀ e, fetchDocument env extensions path = Rejected e →
                                 more = [])).
Proof.
  induction fuel as [|fuel IH]; intros ancestors path range st HI; simpl.
  - apply loadMarkdownBody_sound; [|done].
    intros anc p r st0 HI0. apply wp_diverge, loaderPost_silent; try done.
    by exists []; rewrite app_nil_r.
  - apply loadMarkdownBody_sound; [|done].
    intros anc p r st0 HI0. apply wp_bind.
    eapply wp_mono; [by apply IH|].
    intros o st1 [(HI1 & Hs & He & Hc) _].
    destruct o as [md|e|]; [apply wp_ret|..]; by split_and!.
Qed.
End Refinement.
Section Leaves.
Variable env : Env.
Variable userRoot : string.
Variable extensions : option (list SlidevPreparserExtension).

Lemma preorderForest_cons ancestors t ts :
  preorderForest ancestors (t :: ts) =
  preorder ancestors t ++ preorderForest ancestors ts.
Proof. done. Qed.

Lemma slideAt_located md path i slide :
  fetchDocument env extensions path = Fulfilled md →
  slideAt md i = Some slide →
  rawSlideAt env extensions (path, Z.to_nat (i - 1)) = Some slide.
Proof.
  intros Hf. unfold slideAt, rawSlideAt. simpl. rewrite Hf.
  by destruct (i - 1 <? 0)%Z.
Qed.

(** Every leaf of the forest of a document is a terminal slide under import
    directives. *)
Lemma docForest_leaves fuel :
  ∀ ancestors path range,
    Forall (isImport env extensions) ancestors →
    Forall (isTerminal env extensions)
      (preorderForest ancestors
         (docForest env userRoot extensions fuel path range).1).
Proof.
  assert (∀ expand,
    (∀ ancestors path range,
       Forall (isImport env extensions) ancestors →
       Forall (isTerminal env extensions)
         (preorderForest ancestors (expand path range).1)) →
    ∀ ancestors path range,
      Forall (isImport env extensions) ancestors →
      Forall (isTerminal env extensions)
        (preorderForest ancestors
           (expandDocument env userRoot extensions expand path range).1))
    as Hbody.
  { intros expand Hexp ancestors path range Hanc. unfold expandDocument.
    destruct (fetchDocument env extensions path) as [md|e] eqn:Hf;
      [|by constructor].
    induction (parseRangeString env (length (md_slides md)) range)
      as [|i rest IH]; simpl; [by constructor|].
    destruct (slideAt md i) as [slide|] eqn:Hat; simpl; [|by constructor].
    pose proof (slideAt_located _ _ _ _ Hf Hat) as Hloc.
    assert (Forall (isTerminal env extensions)
              (preorder ancestors
                 (slideTree env userRoot expand (path, Z.to_nat (i - 1)) slide).1))
      as Hone.
    { unfold slideTree.
      destruct (truthy (slide_frontmatter slide !! "disabled")
                || truthy (slide_frontmatter slide !! "hide")) eqn:Hskip;
        [by constructor|].
      apply orb_false_elim in Hskip.
      destruct (truthy (slide_frontmatter slide !! "src")) eqn:Hsrc.
      - destruct (slide_frontmatter slide !! "src") as [[| | |src|]|] eqn:Hv;
          try by constructor.
        destruct (negb (isRemote _) && negb (existsSync env _));
          [by constructor|].
        specialize (Hexp (ancestors ++ [((path, Z.to_nat (i - 1)), slide)])
                      (resolveSrc env userRoot slide (rawPathOf src))
                      (rangeRawOf src)).
        destruct (expand _ _) as [children ended]. simpl in *.
        apply Hexp. apply Forall_app. split; [done|].
        apply Forall_singleton. split_and!; simpl; try done.
        by rewrite Hv.
      - simpl. apply Forall_singleton. by split_and!. }
    destruct (slideTree env userRoot expand (path, Z.to_nat (i - 1)) slide)
      as [t ended].
    destruct (selected _ rest) as [ts ended'].
    simpl in *.
    destruct ended as [[]|e|]; simpl; rewrite ?preorderForest_cons;
      try (apply Forall_app; split; done). }
  induction fuel as [|fuel IH]; simpl; apply Hbody; [|done].
  intros. by constructor.
Qed.
End Leaves.

(** ** The whole of [load] *)

Section Load.
Variable env : Env.
Variable userRoot filepath : string.
Variable mode : option string.
Variable fuel : nat.

Lemma initial_loaderInv extensions :
  loaderInv env extensions [filepath] (logSource filepath initialState).
Proof.
  split.
  - intros path md. simpl. by rewrite lookup_empty.
  - intros path md0 _. unfold memoized. simpl. rewrite lookup_empty.
    rewrite decide_False by (by intros []). split; [done|lia].
Qed.

(** What [load] leaves behind.  When the text of the entry or its extensions
    cannot be had, the one call of [loadSource]; otherwise what the loader
    did from the empty memo. *)
Lemma load_sound :
  wp (load env userRoot filepath mode fuel) initialState
     (λ o st,
        match loadSource env filepath with
        | Rejected e => o = Threw e ∧ st = logSource filepath initialState
        | Fulfilled markdown =>
            match preparserExtensions env markdown filepath mode with
            | Rejected e =>
                o = Threw e ∧ st = logSource filepath initialState
            | Fulfilled extensions =>
                let expansion :=
                  docForest env userRoot extensions fuel (slash filepath) None in
                loaderInv env extensions [filepath] st
                ∧ slides st = emit 0 (preorderForest [] expansion.1)
                ∧ sameEnd o expansion.2
                ∧ (if inherited (slash filepath)
                   then sourceCalls st = [filepath]
                   else ∃ more,
                     sourceCalls st = filepath :: slash filepath :: more
                     ∧ ∀ e, fetchDocument env extensions (slash filepath)
                              = Rejected e → more = [])
                ∧ match o with
                  | Returned data =>
                      data_slides data = slides st
                      ∧ data_markdownFiles data = markdownFiles st
                      ∧ data_watchFiles data = watchFiles st
                  | _ => True
                  end
            end
        end).
Proof.
  unfold load, callLoadSource.
  apply wp_bind, wp_bind, wp_modify, wp_await.
  destruct (loadSource env filepath) as [markdown|e]; [|done].
  apply wp_bind, wp_await.
  destruct (preparserExtensions env markdown filepath mode)
    as [extensions|e]; [|done].
  apply wp_bind.
  eapply wp_mono.
  { apply (loadMarkdown_sound env userRoot extensions [filepath] fuel []).
    apply initial_loaderInv. }
  intros o st [(HI & Hs & He & _) Hfirst]. simpl in Hs.
  specialize (Hfirst (lookup_empty _)). simpl in Hfirst.
  destruct o as [entry|e|].
  - apply wp_bind, wp_getState, wp_ret. by split_and!.
  - by split_and!.
  - by split_and!.
Qed.
End Load.

(** ** More fuel changes nothing once a run ends *)

Section Fuel.
Variable env : Env.
Variable userRoot : string.
Variable extensions : option (list SlidevPreparserExtension).

Lemma agrees_refl {A} (m : M A) : agrees m m.
Proof. by intros st _. Qed.

Lemma agrees_bind {A B} (m m' : M A) (k k' : A → M B) :
  agrees m m' → (∀ a, agrees (k a) (k' a)) →
  agrees (bind m k) (bind m' k').
Proof.
  intros Hm Hk st. unfold bind. specialize (Hm st).
  destruct (m st) as [[a|e|] st1] eqn:Hrun; simpl in *.
  - intros Hnd. rewrite Hm by done. by apply Hk.
  - intros _. by rewrite Hm.
  - done.
Qed.

Lemma agrees_tryCatch {A} (m m' : M A) handler :
  agrees m m' → agrees (tryCatch m handler) (tryCatch m' handler).
Proof.
  intros Hm st. unfold tryCatch. specialize (Hm st).
  destruct (m st) as [[a|e|] st1] eqn:Hrun; simpl in *.
  - intros _. by rewrite Hm.
  - intros _. by rewrite Hm.
  - done.
Qed.

Lemma agrees_forEach {A} (body body' : A → M unit) xs :
  (∀ x, agrees (body x) (body' x)) →
  agrees (forEach body xs) (forEach body' xs).
Proof.
  intros Hb. induction xs as [|x rest IH]; simpl; [apply agrees_refl|].
  apply agrees_bind; [apply Hb|]. by intros _.
Qed.

Lemma agrees_loadSlide recur recur' md self slide override chain :
  (∀ p r o c, agrees (recur p r o c) (recur' p r o c)) →
  agrees (loadSlide env userRoot recur md self slide override chain)
         (loadSlide env userRoot recur' md self slide override chain).
Proof.
  intros Hrec. unfold loadSlide.
  destruct (_ || _); [apply agrees_refl|].
  destruct (truthy _); [|apply agrees_refl].
  destruct (slide_frontmatter slide !! "src") as [[| | |src|]|];
    try apply agrees_refl.
  apply agrees_bind; [apply agrees_refl|].
  intros [|]; [apply agrees_refl|apply Hrec].
Qed.

Lemma agrees_loadMarkdownBody recur recur' path range override importers :
  (∀ p r o c, agrees (recur p r o c) (recur' p r o c)) →
  agrees (loadMarkdownBody env userRoot extensions recur path range
            override importers)
         (loadMarkdownBody env userRoot extensions recur' path range
            override importers).
Proof.
  intros Hrec. unfold loadMarkdownBody.
  apply agrees_bind; [apply agrees_refl|]. intros md.
  apply agrees_bind; [|intros _; apply agrees_refl].
  apply agrees_forEach. intros i. unfold loopBody.
  destruct (slideAt md i) as [subSlide|]; [|apply agrees_refl].
  unfold loadSubSlide.
  apply agrees_bind; [|intros b; apply agrees_refl].
  apply agrees_tryCatch, agrees_bind; [|intros _; apply agrees_refl].
  by apply agrees_loadSlide.
Qed.

Lemma loadMarkdown_more_fuel fuel :
  ∀ path range override importers,
    agrees (loadMarkdown env userRoot extensions fuel path range
              override importers)
           (loadMarkdown env userRoot extensions (S fuel) path range
              override importers).
Proof.
  induction fuel as [|fuel IH]; intros path range override importers.
  - apply agrees_loadMarkdownBody. by intros p r o c st Hd.
  - change (agrees
      (loadMarkdownBody env userRoot extensions
         (λ p r o c, run loadMarkdown env userRoot extensions fuel p r o c
                     then ret tt) path range override importers)
      (loadMarkdownBody env userRoot extensions
         (λ p r o c, run loadMarkdown env userRoot extensions (S fuel) p r o c
                     then ret tt) path range override importers)).
    apply agrees_loadMarkdownBody. intros p r o c.
    apply agrees_bind; [apply IH|intros _; apply agrees_refl].
Qed.
End Fuel.

(** A run of [load] that ends, by returning or by throwing, ends the same
    way, in the same state, with any larger fuel. *)
Lemma load_more_fuel env userRoot filepath mode fuel extra :
  agrees (load env userRoot filepath mode fuel)
         (load env userRoot filepath mode (fuel + extra)).
Proof.
  induction extra as [|extra IH].
  - rewrite Nat.add_0_r. apply agrees_refl.
  - intros st Hnd. rewrite <- (IH st Hnd).
    rewrite Nat.add_succ_r.
    assert (agrees (load env userRoot filepath mode (fuel + extra))
                   (load env userRoot filepath mode (S (fuel + extra)))) as Hstep.
    { unfold load. apply agrees_bind; [apply agrees_refl|]. intros markdown.
      apply agrees_bind; [apply agrees_refl|]. intros extensions.
      apply agrees_bind; [apply loadMarkdown_more_fuel|].
      intros entry. apply agrees_refl. }
    apply Hstep. by rewrite IH.
Qed.

(** ** The output sequence *)

Lemma emit_lookup base leaves i s :
  emit base leaves !! i = Some s →
  ∃ l, leaves !! i = Some l ∧ s = leafSlide l (base + i).
Proof.
  unfold emit. rewrite list_lookup_imap.
  destruct (leaves !! i) as [l|]; simpl; [|done].
  intros [= <-]. by exists l.
Qed.

Lemma load_slides env userRoot filepath mode fuel :
  slides (load env userRoot filepath mode fuel initialState).2 =
  emit 0 (preorderForest [] (entryForest env userRoot filepath mode fuel)).
Proof.
  pose proof (load_sound env userRoot filepath mode fuel) as H.
  unfold wp in H. unfold entryForest.
  destruct (loadSource env filepath) as [markdown|e].
  - destruct (preparserExtensions env markdown filepath mode) as [extensions|e].
    + by destruct H as (_ & -> & _).
    + by destruct H as [_ ->].
  - by destruct H as [_ ->].
Qed.

Lemma slideTree_nodeRef env userRoot expand self slide :
  nodeRef (slideTree env userRoot expand self slide).1 = self.
Proof.
  unfold slideTree.
  destruct (_ || _); [done|].
  destruct (truthy _); [|done].
  destruct (slide_frontmatter slide !! "src") as [[| | |src|]|]; try done.
  destruct (_ && _); [done|]. by destruct (expand _ _).
Qed.

(** The roots of the forest of a document are the slides at the selected
    indices, in the order of the selection: all of them when the expansion
    completes, the first few when it stops early. *)
Lemma expandDocument_roots env userRoot extensions expand path range md :
  fetchDocument env extensions path = Fulfilled md →
  let expansion := expandDocument env userRoot extensions expand path range in
  let indices := parseRangeString env (length (md_slides md)) range in
  ∃ k, nodeRef <$> expansion.1 = (λ i, (path, Z.to_nat (i - 1))) <$> take k indices
       ∧ (expansion.2 = Returned tt → k = length indices).
Proof.
  intros Hf. unfold expandDocument. rewrite Hf. cbv zeta.
  induction (parseRangeString env (length (md_slides md)) range)
    as [|i rest (k & Hk & Hall)]; simpl.
  { by exists 0. }
  destruct (slideAt md i) as [slide|]; simpl.
  - pose proof (slideTree_nodeRef env userRoot expand
                  (path, Z.to_nat (i - 1)) slide) as Href.
    destruct (slideTree env userRoot expand (path, Z.to_nat (i - 1)) slide)
      as [t ended].
    destruct (selected _ rest) as [ts ended'].
    simpl in *.
    destruct ended as [[]|e|]; simpl.
    + exists (S k). rewrite Href. simpl. split; [f_equal; exact Hk|].
      intros ?. f_equal. auto.
    + exists (S k). rewrite Href. simpl. split; [f_equal; exact Hk|].
      intros ?. f_equal. auto.
    + exists 1. rewrite Href. simpl. split; [|done]. by destruct rest.
  - by exists 0.
Qed.

Lemma docForest_roots env userRoot extensions fuel path range md :
  fetchDocument env extensions path = Fulfilled md →
  let expansion := docForest env userRoot extensions fuel path range in
  let indices := parseRangeString env (length (md_slides md)) range in
  ∃ k, nodeRef <$> expansion.1 = (λ i, (path, Z.to_nat (i - 1))) <$> take k indices
       ∧ (expansion.2 = Returned tt → k = length indices).
Proof. destruct fuel; apply expandDocument_roots. Qed.

(** ** The tree the loader walks and the tree of the specification *)

Section SpecRefinement.
Variable env : Env.
Variable userRoot : string.
Variable extensions : option (list SlidevPreparserExtension).

Lemma slideTree_spec expand sexpand inr self slide :
  (∀ p r, inr p r = true → (expand p r).2 ≠ Diverged →
          (expand p r).1 = sexpand p r) →
  slideInRange env userRoot inr slide = true →
  (slideTree env userRoot expand self slide).2 ≠ Diverged →
  (slideTree env userRoot expand self slide).1
    = specSlideTree env userRoot sexpand self slide.
Proof.
  intros Hexp. unfold slideInRange, slideTree, specSlideTree. cbv zeta.
  destruct (truthy _ || truthy _); [done|].
  destruct (truthy (slide_frontmatter slide !! "src")); [|done].
  destruct (slide_frontmatter slide !! "src") as [[| | |src|]|]; try done.
  destruct (negb _ && negb _); [done|].
  intros Hin. specialize (Hexp _ _ Hin).
  destruct (expand _ _) as [children ended]. simpl in *.
  intros Hend. by rewrite Hexp.
Qed.

Lemma selected_spec expand sexpand inr path md indices :
  (∀ p r, inr p r = true → (expand p r).2 ≠ Diverged →
          (expand p r).1 = sexpand p r) →
  forallb (λ i, from_option (slideInRange env userRoot inr) false
                  (slideAt md i)) indices = true →
  let walked :=
    selected
      (λ i, slideTree env userRoot expand (path, Z.to_nat (i - 1))
              <$> slideAt md i) indices in
  walked.2 ≠ Diverged →
  walked.1 =
    omap (λ i, specSlideTree env userRoot sexpand (path, Z.to_nat (i - 1))
                 <$> slideAt md i) indices.
Proof.
  intros Hexp. cbv zeta.
  induction indices as [|i rest IH]; [done|].
  simpl. intros [Hi Hrest]%andb_prop.
  destruct (slideAt md i) as [slide|]; [|done]. simpl in *.
  pose proof (slideTree_spec expand sexpand inr (path, Z.to_nat (i - 1)) slide
                Hexp Hi) as Hnode.
  destruct (slideTree env userRoot expand (path, Z.to_nat (i - 1)) slide)
    as [t ended].
  destruct (selected _ rest) as [ts ended'] eqn:Hsel. simpl in *.
  destruct ended as [[]|e|]; simpl; intros Hend;
    try (rewrite <- Hnode by done; f_equal; by apply IH).
  done.
Qed.

Lemma expandDocument_spec expand sexpand inr path range :
  (∀ p r, inr p r = true → (expand p r).2 ≠ Diverged →
          (expand p r).1 = sexpand p r) →
  documentInRange env userRoot extensions inr path range = true →
  (expandDocument env userRoot extensions expand path range).2 ≠ Diverged →
  (expandDocument env userRoot extensions expand path range).1
    = specExpand env userRoot extensions sexpand path range.
Proof.
  intros Hexp. unfold documentInRange, expandDocument, specExpand.
  destruct (fetchDocument env extensions path) as [md|e]; [|done].
  by apply selected_spec.
Qed.

(** Where every selected position holds a slide and the walk ends, the
    loader walks the tree of the specification. *)
Lemma docForest_spec fuel :
  ∀ path range,
    indicesHoldSlides env userRoot extensions fuel path range = true →
    (docForest env userRoot extensions fuel path range).2 ≠ Diverged →
    (docForest env userRoot extensions fuel path range).1
      = specForest env userRoot extensions fuel path range.
Proof.
  induction fuel as [|fuel IH]; intros path range; simpl;
    apply expandDocument_spec; [by intros p r _ []|exact IH].
Qed.
End SpecRefinement.

(** C1.  The [index] of every output slide is its zero-based position, and
    the data returned hold the output sequence.  Where every position the
    loader selects holds a slide and the run ends, the output of [load] is
    the pre-order traversal of the import tree of the specification, each
    import expanded in place by the slides its range selects from its
    target: so for [A.md] = [a, src: B.md, c] and [B.md] = [b1, b2], where
    [load] returns [a, b1, b2, c] with indices 0, 1, 2, 3 for any fuel from
    1 on.  Where a selected position holds no slide it is not: for [A.md] =
    [src: B.md#0,1,2, c] the tree has the leaves [b1, b2, c] and [load]
    returns [c] alone. *)
Theorem load_output_is_preorder :
  (∀ env userRoot filepath mode fuel,
     let result := load env userRoot filepath mode fuel initialState in
     (∀ i s, slides result.2 !! i = Some s → index s = i)
     ∧ (∀ data, result.1 = Returned data → data_slides data = slides result.2)
     ∧ (indicesHoldSlides env userRoot (extensionsOf env filepath mode) fuel
          (slash filepath) None = true →
        result.1 ≠ Diverged →
        slides result.2 =
          emit 0 (preorderForest []
                    (specEntryForest env userRoot filepath mode fuel))))
  ∧ (let world := Deck.world Deck.files in
     indicesHoldSlides world "/deck" (extensionsOf world "/deck/A.md" None) 1
       (slash "/deck/A.md") None = true
     ∧ (λ l, slide_content (leaf_slide l))
         <$> preorderForest [] (specEntryForest world "/deck" "/deck/A.md" None 1)
       = ["a"; "b1"; "b2"; "c"]
     ∧ ∀ extra,
         let deck := load world "/deck" "/deck/A.md" None (1 + extra)
                       initialState in
         (λ s, (content s, index s)) <$> slides deck.2 =
           [("a", 0); ("b1", 1); ("b2", 2); ("c", 3)]
         ∧ ∃ data, deck.1 = Returned data
                   ∧ content <$> data_slides data = ["a"; "b1"; "b2"; "c"])
  ∧ (let world := Deck.listing Deck.emptyIndex in
     indicesHoldSlides world "/deck" (extensionsOf world "/deck/A.md" None) 1
       (slash "/deck/A.md") None = false
     ∧ (λ l, slide_content (leaf_slide l))
         <$> preorderForest [] (specEntryForest world "/deck" "/deck/A.md" None 1)
       = ["b1"; "b2"; "c"]
     ∧ ∀ extra,
         let deck := load world "/deck" "/deck/A.md" None (1 + extra)
                       initialState in
         (λ s, (content s, index s)) <$> slides deck.2 = [("c", 0)]
         ∧ ∃ data, deck.1 = Returned data
                   ∧ content <$> data_slides data = ["c"]).
Proof.
  split_and!.
  - intros env userRoot filepath mode fuel. cbv zeta. split_and!.
    + intros i s. rewrite load_slides. intros Hs.
      apply emit_lookup in Hs as (l & _ & ->). done.
    + intros data Hret.
      pose proof (load_sound env userRoot filepath mode fuel) as H.
      unfold wp in H. rewrite Hret in H.
      destruct (loadSource env filepath) as [markdown|e]; [|by destruct H].
      destruct (preparserExtensions env markdown filepath mode)
        as [extensions|e]; [|by destruct H].
      by destruct H as (_ & _ & _ & _ & ? & _).
    + intros Hin Hends. rewrite load_slides. do 2 f_equal.
      pose proof (load_sound env userRoot filepath mode fuel) as H.
      unfold wp in H.
      unfold entryForest, specEntryForest, extensionsOf in *.
      destruct (loadSource env filepath) as [markdown|e]; [|done].
      destruct (preparserExtensions env markdown filepath mode)
        as [extensions|e]; [|done].
      destruct H as (_ & _ & Hend & _).
      apply docForest_spec; [done|].
      intros Hdiv. rewrite Hdiv in Hend.
      by destruct (load env userRoot filepath mode fuel initialState).1.
  - cbv zeta. split_and!; [by vm_compute..|]. intros extra.
    rewrite (load_more_fuel (Deck.world Deck.files) "/deck" "/deck/A.md" None
               1 extra initialState) by (by vm_compute).
    split; [by vm_compute|]. eexists. split; by vm_compute.
  - cbv zeta. split_and!; [by vm_compute..|]. intros extra.
    rewrite (load_more_fuel (Deck.listing Deck.emptyIndex) "/deck"
               "/deck/A.md" None 1 extra initialState) by (by vm_compute).
    split; [by vm_compute|]. eexists. split; by vm_compute.
Qed.

Lemma spread_lookup own override k :
  spread own override !! k =
  match override ≫= (λ o, o !! k) with
  | Some v => Some v
  | None => own !! k
  end.
Proof.
  destruct override as [o|]; simpl; [|done].
  rewrite lookup_union. by destruct (o !! k), (own !! k).
Qed.

Lemma truthy_overlay (over own : option JsValue) :
  truthy over = false → truthy own = false →
  truthy (match over with Some v => Some v | None => own end) = false.
Proof. by destruct over. Qed.

Lemma overrideOf_no_src ancestors o :
  overrideOf ancestors = Some o → o !! "src" = None.
Proof.
  destruct ancestors as [|a l _] using rev_ind; [done|].
  destruct a as [self slide]. rewrite overrideOf_snoc. intros [= <-].
  apply lookup_delete_eq.
Qed.

Lemma overrideOf_lookup ancestors self slide k :
  k ≠ "src" →
  overrideOf (ancestors ++ [(self, slide)]) ≫= (λ o, o !! k) =
  match overrideOf ancestors ≫= (λ o, o !! k) with
  | Some v => Some v
  | None => slide_frontmatter slide !! k
  end.
Proof.
  intros Hk. rewrite overrideOf_snoc. simpl.
  rewrite lookup_delete_ne by done. apply spread_lookup.
Qed.

(** Import directives are enabled, so what they hand down never switches a
    slide off. *)
Lemma overrideOf_enabled env extensions ancestors k :
  k = "disabled" ∨ k = "hide" →
  Forall (isImport env extensions) ancestors →
  truthy (overrideOf ancestors ≫= (λ o, o !! k)) = false.
Proof.
  intros Hk. induction ancestors as [|[self slide] l IH] using rev_ind; [done|].
  rewrite Forall_app, Forall_singleton. intros [Hl (_ & [Hd Hh] & _)].
  rewrite overrideOf_lookup by (by destruct Hk as [-> | ->]).
  specialize (IH Hl).
  destruct (overrideOf l ≫= (λ o, o !! k)) as [v|]; [done|].
  simpl in *. by destruct Hk as [-> | ->].
Qed.

Lemma entryForest_leaves env userRoot filepath mode fuel :
  Forall (isTerminal env (extensionsOf env filepath mode))
    (preorderForest [] (entryForest env userRoot filepath mode fuel)).
Proof.
  unfold entryForest, extensionsOf.
  destruct (loadSource env filepath) as [markdown|e]; [|by constructor].
  destruct (preparserExtensions env markdown filepath mode) as [extensions|e];
    [|by constructor].
  by apply docForest_leaves.
Qed.

(** Every slide of the output is the resolved slide of a leaf of the tree. *)
Lemma load_slide_leaf env userRoot filepath mode fuel i s :
  slides (load env userRoot filepath mode fuel initialState).2 !! i = Some s →
  ∃ l, preorderForest [] (entryForest env userRoot filepath mode fuel) !! i
         = Some l
       ∧ s = leafSlide l i
       ∧ isTerminal env (extensionsOf env filepath mode) l.
Proof.
  rewrite load_slides. intros Hs.
  apply emit_lookup in Hs as (l & Hl & ->). exists l. split_and!; try done.
  eapply Forall_lookup_1; [apply entryForest_leaves|done].
Qed.

Lemma chainOf_elem ancestors (ref : SlideRef) :
  ref ∈ default [] (chainOf ancestors) → ∃ slide, (ref, slide) ∈ ancestors.
Proof.
  destruct ancestors as [|a l]; [by intros ?%elem_of_nil|].
  intros Hin. change (ref ∈ (a :: l).*1) in Hin.
  apply list_elem_of_fmap in Hin as ([r slide] & -> & Hin). by exists slide.
Qed.

(** C2.  A raw slide whose own frontmatter has [disabled] or [hide] truthy is
    resolved to nothing: [loadSlide] returns at once and leaves the state as
    it was, whatever the recursive call and whether or not the slide has a
    [src].  Hence every slide of the output of [load] comes from a raw slide
    with neither key truthy, has neither truthy in its merged frontmatter, and
    so has every import directive of its chain.  In a deck whose second slide
    is [disabled] and names [B.md], only the entry file is ever fetched. *)
Theorem disabled_or_hidden_slide_is_skipped env userRoot filepath mode fuel :
  (∀ recur md self slide override chain st,
     truthy (slide_frontmatter slide !! "disabled")
     || truthy (slide_frontmatter slide !! "hide") = true →
     loadSlide env userRoot recur md self slide override chain st
       = (Returned tt, st))
  ∧ (∀ s, s ∈ slides (load env userRoot filepath mode fuel initialState).2 →
       truthy (frontmatter s !! "disabled") = false
       ∧ truthy (frontmatter s !! "hide") = false
       ∧ (∃ slide,
            rawSlideAt env (extensionsOf env filepath mode) (source s)
              = Some slide
            ∧ enabled slide)
       ∧ ∀ ref, ref ∈ default [] (importChain s) →
           ∃ importer,
             rawSlideAt env (extensionsOf env filepath mode) ref = Some importer
             ∧ enabled importer)
  ∧ (∀ fuel',
       let deck :=
         load (Deck.world Deck.switchedOff) "/deck" "/deck/A.md" None fuel'
              initialState in
       content <$> slides deck.2 = ["a"; "c"]
       ∧ sourceCalls deck.2 = ["/deck/A.md"; "/deck/A.md"]
       ∧ existsCalls deck.2 = []).
Proof.
  split_and!.
  - intros recur md self slide override chain st Hskip.
    unfold loadSlide. by rewrite Hskip.
  - intros s [i Hs]%list_elem_of_lookup.
    apply load_slide_leaf in Hs as (l & _ & -> & Hloc & [Hd Hh] & _ & Hanc).
    simpl. rewrite !spread_lookup.
    pose proof (overrideOf_enabled _ _ _ "disabled" (or_introl eq_refl) Hanc) as Hod.
    pose proof (overrideOf_enabled _ _ _ "hide" (or_intror eq_refl) Hanc) as Hoh.
    split_and!.
    + by apply truthy_overlay.
    + by apply truthy_overlay.
    + by exists (leaf_slide l).
    + intros ref [importer Hin]%chainOf_elem.
      rewrite Forall_forall in Hanc.
      destruct (Hanc _ Hin) as (? & ? & _). by exists importer.
  - intros fuel'. cbv zeta. change fuel' with (0 + fuel').
    rewrite (load_more_fuel (Deck.world Deck.switchedOff) "/deck" "/deck/A.md"
               None 0 fuel' initialState) by (by vm_compute).
    by vm_compute.
Qed.

(** C3, as stated, fails: a terminal slide whose own frontmatter has [src]
    with a falsy value (here the YAML null of a bare [src:]) is emitted with
    that key still in its frontmatter. *)
Lemma falsy_src_key_survives :
  let deck :=
    load (Deck.world Deck.emptySrc) "/deck" "/deck/A.md" None 0 initialState in
  ∃ s, s ∈ slides deck.2 ∧ frontmatter s !! "src" = Some JNull.
Proof.
  eexists. split.
  - apply list_elem_of_lookup. exists 0. by vm_compute.
  - by vm_compute.
Qed.

(** C3, amended.  No slide of the output has a truthy [src] in its merged
    frontmatter: the override handed down by the import directives above it
    never defines [src], so the key is there only when the slide's own
    frontmatter has it with a falsy value.  Precedence holds key by key: the
    emitted value is the override's when the override defines the key,
    otherwise the slide's own; and an import directive hands down, for every
    key but [src], the value it received when it received one, otherwise its
    own.  A slide with [layout] and [title], imported by a directive with
    [layout] and [class], comes out with the directive's [layout] and
    [class], its own [title], and no [src]. *)
Theorem resolved_frontmatter_precedence env userRoot filepath mode fuel :
  (∀ s, s ∈ slides (load env userRoot filepath mode fuel initialState).2 →
     truthy (frontmatter s !! "src") = false
     ∧ ∃ l,
         s = leafSlide l (index s)
         ∧ isTerminal env (extensionsOf env filepath mode) l
         ∧ overrideOf (leaf_ancestors l) ≫= (λ o, o !! "src") = None
         ∧ ∀ k, frontmatter s !! k =
                match overrideOf (leaf_ancestors l) ≫= (λ o, o !! k) with
                | Some v => Some v
                | None => slide_frontmatter (leaf_slide l) !! k
                end)
  ∧ (∀ ancestors self slide k,
       overrideOf (ancestors ++ [(self, slide)]) ≫= (λ o, o !! k) =
       if decide (k = "src") then None
       else match overrideOf ancestors ≫= (λ o, o !! k) with
            | Some v => Some v
            | None => slide_frontmatter slide !! k
            end)
  ∧ (∀ extra,
       let deck :=
         load (Deck.world Deck.overriding) "/deck" "/deck/A.md" None
              (1 + extra) initialState in
       (λ s, (content s, frontmatter s !! "layout", frontmatter s !! "class",
              frontmatter s !! "title", frontmatter s !! "src"))
         <$> slides deck.2 =
       [ ("b", Some (JStr "cover"), Some (JStr "wide"), Some (JStr "T"),
          None) ]).
Proof.
  split_and!.
  - intros s [i Hs]%list_elem_of_lookup.
    apply load_slide_leaf in Hs as (l & _ & -> & Hl).
    assert (overrideOf (leaf_ancestors l) ≫= (λ o, o !! "src") = None) as Hno.
    { destruct (overrideOf (leaf_ancestors l)) as [o|] eqn:Ho; [|done].
      simpl. by eapply overrideOf_no_src. }
    split.
    + simpl. rewrite spread_lookup, Hno. by destruct Hl as (_ & _ & ? & _).
    + exists l. split_and!; try done. intros k. apply spread_lookup.
  - intros ancestors self slide k. case_decide as Hk.
    + subst k. destruct (overrideOf _) as [o|] eqn:Ho; [|done].
      simpl. by eapply overrideOf_no_src.
    + by apply overrideOf_lookup.
  - intros extra. cbv zeta.
    rewrite (load_more_fuel (Deck.world Deck.overriding) "/deck" "/deck/A.md"
               None 1 extra initialState) by (by vm_compute).
    by vm_compute.
Qed.

(** ** Calls of the collaborators *)

Lemma load_loaderInv env userRoot filepath mode fuel :
  loaderInv env (extensionsOf env filepath mode) [filepath]
    (load env userRoot filepath mode fuel initialState).2.
Proof.
  pose proof (load_sound env userRoot filepath mode fuel) as H.
  unfold wp in H. unfold extensionsOf.
  destruct (loadSource env filepath) as [markdown|e].
  - destruct (preparserExtensions env markdown filepath mode) as [extensions|e].
    + by destruct H as (? & _).
    + destruct H as [_ ->]. apply initial_loaderInv.
  - destruct H as [_ ->]. apply initial_loaderInv.
Qed.

(** C4, as stated, fails: in one [load] the entry path is fetched twice, and
    so is an imported path whose fetch fails, once for each slide that
    imports it. *)
Lemma paths_fetched_twice :
  let deck :=
    load (Deck.world Deck.unreachableTwice) "/deck" "/deck/A.md" None 1
         initialState in
  calls "/deck/A.md" (sourceCalls deck.2) = 2
  ∧ calls "https://x.test/B.md" (sourceCalls deck.2) = 2.
Proof. by vm_compute. Qed.

(** C4, amended.  In one [load], a document that is in the memo has been
    parsed once and fetched once by the loader, the entry path being fetched
    once more up front; a path that can be fetched and parsed is never parsed
    twice nor fetched twice by the loader; and the loader, on a path that is
    in the memo, returns the memoized document and calls nothing.  (A path
    whose fetch or parse fails is not memoized and is tried again at each
    import.)  For [A.md] importing [B.md#1] and then [B.md#2], [B.md] is
    fetched once and parsed once. *)
Theorem memoized_documents_fetched_once env userRoot filepath mode fuel :
  let st := (load env userRoot filepath mode fuel initialState).2 in
  let extensions := extensionsOf env filepath mode in
  (∀ path, is_Some (markdownFiles st !! path) →
     calls path (parseCalls st) = 1
     ∧ calls path (sourceCalls st) = if decide (path = filepath) then 2 else 1)
  ∧ (∀ path md, fetchDocument env extensions path = Fulfilled md →
       (calls path (parseCalls st) ≤ 1)%nat
       ∧ (calls path (sourceCalls st) ≤ calls path [filepath] + 1)%nat)
  ∧ (∀ extensions' path md st0,
       markdownFiles st0 !! path = Some md →
       obtainDocument env extensions' path st0 = (Returned md, st0))
  ∧ (∀ extra,
       let deck :=
         load (Deck.world Deck.importedTwice) "/deck" "/deck/A.md" None
              (1 + extra) initialState in
       content <$> slides deck.2 = ["b1"; "b2"]
       ∧ sourceCalls deck.2 = ["/deck/A.md"; "/deck/A.md"; "/deck/B.md"]
       ∧ parseCalls deck.2 = ["/deck/A.md"; "/deck/B.md"]).
Proof.
  cbv zeta.
  pose proof (load_loaderInv env userRoot filepath mode fuel) as [Hmemo Hlogs].
  assert (∀ path, calls path [filepath] = if decide (path = filepath) then 1 else 0)
    as Hentry.
  { intros path. unfold calls. simpl.
    destruct (string_dec filepath path), (decide (path = filepath)); congruence. }
  split_and!.
  - intros path [md Hin].
    destruct (Hmemo _ _ Hin) as (md0 & Hfetch & _).
    destruct (Hlogs _ _ Hfetch) as [Hp Hs].
    unfold memoized in *. rewrite decide_True in Hp, Hs by by exists md.
    split; [done|]. rewrite Hs, Hentry. by case_decide.
  - intros path md Hfetch. destruct (Hlogs _ _ Hfetch) as [Hp Hs].
    unfold memoized in *. case_decide; lia.
  - intros extensions' path md st0 Hin. unfold obtainDocument, bind, getState.
    by rewrite Hin.
  - intros extra.
    rewrite (load_more_fuel (Deck.world Deck.importedTwice) "/deck"
               "/deck/A.md" None 1 extra initialState) by (by vm_compute).
    by vm_compute.
Qed.

(** ** The path an import names *)

Lemma split_nonempty sep s : ∃ piece more, split sep s = piece :: more.
Proof.
  induction s as [|c rest (piece & more & IH)]; simpl; [by eauto|].
  destruct (Ascii.eqb c sep); [by eauto|]. rewrite IH. by eauto.
Qed.

Lemma split_first_piece sep s :
  default EmptyString (split sep s !! 0) = (splitAtFirst sep s).1.
Proof.
  induction s as [|c rest IH]; simpl; [done|].
  destruct (Ascii.eqb c sep); [done|].
  destruct (split_nonempty sep rest) as (piece & more & Hs).
  rewrite Hs in *. destruct (splitAtFirst sep rest) as [before after].
  simpl in *. by rewrite IH.
Qed.

Lemma split_second_piece sep s :
  split sep s !! 1 =
  (λ after, (splitAtFirst sep after).1) <$> (splitAtFirst sep s).2.
Proof.
  induction s as [|c rest IH]; simpl; [done|].
  destruct (Ascii.eqb c sep).
  - simpl. rewrite <- split_first_piece.
    destruct (split_nonempty sep rest) as (piece & more & ->). done.
  - destruct (split_nonempty sep rest) as (piece & more & Hs).
    rewrite Hs in *. destruct (splitAtFirst sep rest) as [before after].
    done.
Qed.

Lemma splitAtFirst_no_separator sep s :
  occurs sep s = false → splitAtFirst sep s = (s, None).
Proof.
  induction s as [|c rest IH]; simpl; [done|].
  destruct (Ascii.eqb c sep); [done|]. simpl. intros H. by rewrite IH.
Qed.

Lemma slash_no_backslash s : occurs backslashChar (slash s) = false.
Proof.
  induction s as [|c rest IH]; simpl; [done|]. rewrite IH.
  destruct (Ascii.eqb c backslashChar) eqn:Hc; [done|]. by rewrite Hc.
Qed.

(** C5, as stated, fails: of [B.md#1#2] the range part the loader passes on
    is [1], the text between the first two [#], where a split at the first
    [#] gives [1#2]. *)
Lemma range_part_stops_at_second_hash :
  rangeRawOf "B.md#1#2" = Some "1"
  ∧ (splitAtFirst hashChar "B.md#1#2").2 = Some "1#2"
  ∧ (loadSlide (Deck.world Deck.files) "/deck"
       (λ path range _ _, throw (path +:+ " " +:+ default "" range))
       "/deck/A.md" ("/deck/A.md", 0)
       (Deck.rawSlide "/deck/A.md" {[ "src" := JStr "B.md#1#2" ]} 0 "")
       None None initialState).1
    = Threw "/deck/B.md 1".
Proof. by vm_compute. Qed.

(** C5, amended.  The [src] field is split at every [#]: the path part is the
    text before the first [#], the range part, when there is a [#], the text
    between the first [#] and the next one (all of the text after the first
    when there is no other), and it is absent otherwise.  The path part is
    then resolved: an [http(s)://] string is used as it is; a path starting
    with [/] is resolved against the project root without its leading [/];
    any other path against the directory of the file that owns the slide; a
    local path is put in forward-slash form.  The loader is entered with that
    path and that range. *)
Theorem src_is_split_and_resolved env userRoot :
  (∀ src,
     rawPathOf src = (splitAtFirst hashChar src).1
     ∧ rangeRawOf src =
         (λ after, (splitAtFirst hashChar after).1)
           <$> (splitAtFirst hashChar src).2)
  ∧ (∀ src,
       occurs hashChar (default "" (splitAtFirst hashChar src).2) = false →
       (rawPathOf src, rangeRawOf src) = splitAtFirst hashChar src)
  ∧ (∀ slide rawPath,
       isRemote rawPath = true →
       resolveSrc env userRoot slide rawPath = rawPath)
  ∧ (∀ slide rawPath,
       isRemote rawPath = false → startsWith "/" rawPath = true →
       resolveSrc env userRoot slide rawPath
         = slash (resolve env userRoot (substring1 rawPath)))
  ∧ (∀ slide rawPath,
       isRemote rawPath = false → startsWith "/" rawPath = false →
       resolveSrc env userRoot slide rawPath
         = slash (resolve env (dirname env (slide_filepath slide)) rawPath))
  ∧ (∀ slide rawPath,
       isRemote rawPath = false →
       occurs backslashChar (resolveSrc env userRoot slide rawPath) = false)
  ∧ (∀ recur md self slide override chain st src,
       enabled slide →
       slide_frontmatter slide !! "src" = Some (JStr src) → src ≠ "" →
       let path := resolveSrc env userRoot slide (rawPathOf src) in
       isRemote path = true ∨ existsSync env path = true →
       loadSlide env userRoot recur md self slide override chain st =
       recur path (rangeRawOf src)
         (Some (delete "src" (spread (slide_frontmatter slide) override)))
         (Some (default [] chain ++ [self]))
         (if isRemote path then st else logExists path st))
  ∧ (let slide := Deck.rawSlide "/deck/sub/A.md" ∅ 0 "" in
     let world := Deck.world Deck.files in
     resolveSrc world "/deck" slide (rawPathOf "https://x.test/B.md#2")
       = "https://x.test/B.md"
     ∧ resolveSrc world "/deck" slide (rawPathOf "/pages/B.md#2")
       = "/deck/pages/B.md"
     ∧ resolveSrc world "/deck" slide (rawPathOf "B.md") = "/deck/sub/B.md"
     ∧ rangeRawOf "/pages/B.md#2" = Some "2"
     ∧ rangeRawOf "B.md" = None).
Proof.
  split_and!.
  - intros src. split; [apply split_first_piece|apply split_second_piece].
  - intros src Hno. unfold rawPathOf, rangeRawOf.
    rewrite split_first_piece, split_second_piece.
    destruct (splitAtFirst hashChar src) as [before [after|]]; simpl in *; [|done].
    by rewrite splitAtFirst_no_separator.
  - intros slide rawPath Hr. unfold resolveSrc. by rewrite Hr.
  - intros slide rawPath Hr Hs. unfold resolveSrc. by rewrite Hr, Hs.
  - intros slide rawPath Hr Hs. unfold resolveSrc. by rewrite Hr, Hs.
  - intros slide rawPath Hr. unfold resolveSrc. rewrite Hr.
    apply slash_no_backslash.
  - intros recur md self slide override chain st src [Hd Hh] Hsrc Hne path Hok.
    unfold loadSlide. rewrite Hd, Hh, Hsrc. simpl.
    assert (String.eqb src "" = false) as -> by (by apply String.eqb_neq).
    simpl. fold path. unfold bind.
    destruct (isRemote path) eqn:Hr; simpl.
    + by destruct chain.
    + destruct Hok as [|Hex]; [done|]. rewrite Hex. simpl. by destruct chain.
  - by vm_compute.
Qed.

(** ** Errors *)

(** C6.  An import directive (an enabled slide with a non-empty string [src])
    whose resolved path is local and does not exist: [loadSlide] returns
    without a recursive call, whatever that call would do, having asked
    [existsSync] once and appended one error to the importing document, with
    the slide's start line as row and a message that names the resolved path;
    nothing is emitted, fetched or parsed.  When the resolved path is remote,
    [existsSync] is not asked and the recursive call starts from the state as
    it was. *)
Theorem missing_local_import_is_recorded
    env userRoot recur md self slide override chain st src :
  enabled slide →
  slide_frontmatter slide !! "src" = Some (JStr src) → src ≠ "" →
  let path := resolveSrc env userRoot slide (rawPathOf src) in
  (isRemote path = false → existsSync env path = false →
   ∀ doc, markdownFiles st !! md = Some doc →
     loadSlide env userRoot recur md self slide override chain st =
     (Returned tt,
      setMarkdownFiles
        (insert md
           (withErrors
              (Some (default [] (md_errors doc) ++
                     [ {| row := slide_start slide;
                          message :=
                            "Imported markdown file not found: " +:+ path |} ]))
              doc))
        (logExists path st)))
  ∧ (isRemote path = true →
     loadSlide env userRoot recur md self slide override chain st =
     recur path (rangeRawOf src)
       (Some (delete "src" (spread (slide_frontmatter slide) override)))
       (Some (default [] chain ++ [self])) st).
Proof.
  intros [Hd Hh] Hsrc Hne path.
  assert (String.eqb src "" = false) as Hnonempty by (by apply String.eqb_neq).
  split.
  - intros Hlocal Hmissing doc Hdoc.
    unfold loadSlide. rewrite Hd, Hh, Hsrc. simpl. rewrite Hnonempty. simpl.
    fold path. unfold bind. rewrite Hlocal. simpl. rewrite Hmissing. simpl.
    unfold pushError, modify, withError, setMarkdownFiles. simpl.
    do 2 f_equal.
    apply map_eq. intros k. rewrite lookup_alter, lookup_insert.
    case_decide; [subst k; by rewrite Hdoc|done].
  - intros Hremote.
    unfold loadSlide. rewrite Hd, Hh, Hsrc. simpl. rewrite Hnonempty. simpl.
    fold path. unfold bind. rewrite Hremote. simpl. by destruct chain.
Qed.

(** The import of [missing.md] in the second slide of [/deck/A.md], resolved
    with a recursive call that would diverge. *)
Lemma missing_local_import_witness :
  let world := Deck.world Deck.missingImport in
  let slide :=
    Deck.rawSlide "/deck/A.md" {[ "src" := JStr "missing.md" ]} 4 "" in
  let st := setMarkdownFiles (λ _, Deck.missingImport) initialState in
  let result :=
    loadSlide world "/deck" (λ _ _ _ _, diverge) "/deck/A.md"
      ("/deck/A.md", 1) slide None None st in
  enabled slide
  ∧ slide_frontmatter slide !! "src" = Some (JStr "missing.md")
  ∧ "missing.md" ≠ ""
  ∧ result.1 = Returned tt
  ∧ md_errors <$> markdownFiles result.2 !! "/deck/A.md" =
      Some (Some [ {| row := 4;
                      message :=
                        "Imported markdown file not found: /deck/missing.md" |} ])
  ∧ slides result.2 = []
  ∧ sourceCalls result.2 = []
  ∧ existsCalls result.2 = ["/deck/missing.md"].
Proof.
  cbv zeta.
  assert (enabled (Deck.rawSlide "/deck/A.md" {[ "src" := JStr "missing.md" ]} 4 ""))
    as Hen by (by vm_compute).
  assert (slide_frontmatter
            (Deck.rawSlide "/deck/A.md" {[ "src" := JStr "missing.md" ]} 4 "")
            !! "src" = Some (JStr "missing.md")) as Hsrc by (by vm_compute).
  assert ("missing.md" ≠ "") as Hne by done.
  split_and!; [done..| | | | |].
  all: destruct (missing_local_import_is_recorded
         (Deck.world Deck.missingImport) "/deck" (λ _ _ _ _, diverge)
         "/deck/A.md" ("/deck/A.md", 1) _ None None
         (setMarkdownFiles (λ _, Deck.missingImport) initialState)
         "missing.md" Hen Hsrc Hne) as [Hlocal _].
  all: rewrite (Hlocal eq_refl eq_refl (Deck.document "/deck/A.md"
         [ Deck.rawSlide "/deck/A.md" ∅ 0 "a";
           Deck.rawSlide "/deck/A.md" {[ "src" := JStr "missing.md" ]} 4 "";
           Deck.rawSlide "/deck/A.md" ∅ 8 "c" ]) eq_refl).
  all: by vm_compute.
Defined.

(** The same deck through [load]: one error on [/deck/A.md], the slides
    around the import emitted, nothing fetched but the entry. *)
Example missing_import_end_to_end extra :
  let deck :=
    load (Deck.world Deck.missingImport) "/deck" "/deck/A.md" None extra
         initialState in
  content <$> slides deck.2 = ["a"; "c"]
  ∧ md_errors <$> markdownFiles deck.2 !! "/deck/A.md" =
      Some (Some [ {| row := 4;
                      message :=
                        "Imported markdown file not found: /deck/missing.md" |} ])
  ∧ sourceCalls deck.2 = ["/deck/A.md"; "/deck/A.md"].
Proof.
  cbv zeta. change extra with (0 + extra).
  rewrite (load_more_fuel (Deck.world Deck.missingImport) "/deck" "/deck/A.md"
             None 0 extra initialState) by (by vm_compute).
  by vm_compute.
Qed.

Lemma loadSubSlide_never_throws
    env userRoot recur path override importers self subSlide st e :
  (loadSubSlide env userRoot recur path override importers self subSlide st).1
  ≠ Threw e.
Proof.
  unfold loadSubSlide, bind, tryCatch.
  destruct (loadSlide _ _ _ _ _ _ _ _ st) as [[[]|e'|] st1]; simpl; try done.
  by destruct (importers ≫= last).
Qed.

Lemma loop_never_throws env userRoot recur path md override importers indices :
  Forall (λ i, is_Some (slideAt md i)) indices →
  ∀ st e,
    (forEach (loopBody env userRoot recur path md override importers)
       indices st).1 ≠ Threw e.
Proof.
  induction 1 as [|i rest [subSlide Hi] _ IH]; intros st e; [done|].
  simpl. unfold bind, loopBody at 1. rewrite Hi.
  pose proof (loadSubSlide_never_throws env userRoot recur path override
                importers (path, Z.to_nat (i - 1)) subSlide st) as Hsub.
  destruct (loadSubSlide _ _ _ _ _ _ _ _ st) as [[[]|e'|] st1]; simpl in *.
  - apply IH.
  - by destruct (Hsub e').
  - done.
Qed.

(** X17.  At a selected index that holds a slide: when resolving that slide
    of the document under [path] throws [e], the
    loop body returns normally, having appended to that document one error
    with the slide's start line as row and a message that ends in [e]; the
    slide is not added to the imports of the direct importer; and the loop
    goes on with the remaining indices from there.  A loop over indices that
    all hold a slide never throws. *)
Theorem slide_error_is_caught_per_slide
    env userRoot recur path md override importers index rest subSlide e st st1 :
  slideAt md index = Some subSlide →
  loadSlide env userRoot recur path (path, Z.to_nat (index - 1)) subSlide
    override importers st = (Threw e, st1) →
  let recorded :=
    withError path
      {| row := slide_start subSlide;
         message := "Error when loading slide: " +:+ e |} st1 in
  loopBody env userRoot recur path md override importers index st
    = (Returned tt, recorded)
  ∧ forEach (loopBody env userRoot recur path md override importers)
      (index :: rest) st
    = forEach (loopBody env userRoot recur path md override importers)
        rest recorded
  ∧ (∀ doc, markdownFiles st1 !! path = Some doc →
       md_errors <$> markdownFiles recorded !! path =
       Some (Some (default [] (md_errors doc) ++
                   [ {| row := slide_start subSlide;
                        message := "Error when loading slide: " +:+ e |} ])))
  ∧ slideImports recorded = slideImports st1
  ∧ slides recorded = slides st1
  ∧ (Forall (λ i, is_Some (slideAt md i)) rest →
     ∀ e',
       (forEach (loopBody env userRoot recur path md override importers)
          (index :: rest) st).1 ≠ Threw e').
Proof.
  intros Hat Hthrow recorded.
  assert (loopBody env userRoot recur path md override importers index st
          = (Returned tt, recorded)) as Hbody.
  { unfold loopBody. rewrite Hat.
    unfold loadSubSlide, bind, tryCatch. by rewrite Hthrow. }
  split_and!; try done.
  - simpl. unfold bind. by rewrite Hbody.
  - intros doc Hdoc. subst recorded. unfold withError. simpl.
    rewrite lookup_alter, decide_True by done. by rewrite Hdoc.
  - intros Hrest e'. apply loop_never_throws. constructor; [by eexists|done].
Qed.

(** The second slide of [/deck/A.md] has the number 7 as [src]: reading
    [split] off it throws, the loop records it and goes on to emit [c]. *)
Lemma slide_error_witness :
  let world := Deck.world Deck.numericSrc in
  let st := setMarkdownFiles (λ _, Deck.numericSrc) initialState in
  let bad := Deck.rawSlide "/deck/A.md" {[ "src" := JNum 7 ]} 4 "" in
  let loop :=
    forEach (loopBody world "/deck" (λ _ _ _ _, diverge) "/deck/A.md"
               (Deck.document "/deck/A.md"
                  [ Deck.rawSlide "/deck/A.md" ∅ 0 "a"; bad;
                    Deck.rawSlide "/deck/A.md" ∅ 8 "c" ]) None None) in
  loadSlide world "/deck" (λ _ _ _ _, diverge) "/deck/A.md" ("/deck/A.md", 1)
    bad None None st = (Threw splitNotAFunction, st)
  ∧ (loop [2; 3]%Z st).1 = Returned tt
  ∧ content <$> slides (loop [2; 3]%Z st).2 = ["c"]
  ∧ md_errors <$> markdownFiles (loop [2; 3]%Z st).2 !! "/deck/A.md" =
      Some (Some [ {| row := 4;
                      message :=
                        "Error when loading slide: " +:+ splitNotAFunction |} ]).
Proof.
  cbv zeta.
  assert (loadSlide (Deck.world Deck.numericSrc) "/deck" (λ _ _ _ _, diverge)
            "/deck/A.md" ("/deck/A.md", 1)
            (Deck.rawSlide "/deck/A.md" {[ "src" := JNum 7 ]} 4 "") None None
            (setMarkdownFiles (λ _, Deck.numericSrc) initialState)
          = (Threw splitNotAFunction,
             setMarkdownFiles (λ _, Deck.numericSrc) initialState))
    as Hthrow by (by vm_compute).
  split; [exact Hthrow|].
  destruct (slide_error_is_caught_per_slide
              (Deck.world Deck.numericSrc) "/deck" (λ _ _ _ _, diverge)
              "/deck/A.md"
              (Deck.document "/deck/A.md"
                 [ Deck.rawSlide "/deck/A.md" ∅ 0 "a";
                   Deck.rawSlide "/deck/A.md" {[ "src" := JNum 7 ]} 4 "";
                   Deck.rawSlide "/deck/A.md" ∅ 8 "c" ])
              None None 2%Z [3%Z] _ _ _ _ eq_refl Hthrow)
    as (_ & Hloop & _).
  rewrite Hloop. by vm_compute.
Defined.

(** C7.  The boundary of lines 88 to 97 gives way at a selected index that
    holds no slide.  There [md.slides[index - 1]] is [undefined]: [loadSlide]
    throws on reading [slide.frontmatter], and the handler, after
    [md.errors ??= []], throws in its turn on reading [subSlide.start].  No
    error is recorded, the loop ends with that second error and the indices
    after it are never visited, whatever the recursive call is.  For [A.md] =
    [src: B.md#0,1,2, c] and [B.md] = [b1, b2], the range selecting the
    positions 0, 1 and 2, with any fuel from 1 on: [load] returns [c] alone,
    [b1] and [b2] though selected are never resolved, [B.md] is left with an
    empty list of errors, and the one error is recorded on the importing
    slide of [A.md]. *)
Theorem empty_index_aborts_the_loop :
  (∀ env userRoot recur path md override importers index rest st,
     slideAt md index = None →
     let aborted :=
       setMarkdownFiles
         (alter (λ d, withErrors (Some (default [] (md_errors d))) d) path) st in
     loopBody env userRoot recur path md override importers index st
       = (Threw startOfUndefined, aborted)
     ∧ forEach (loopBody env userRoot recur path md override importers)
         (index :: rest) st
       = (Threw startOfUndefined, aborted)
     ∧ slides aborted = slides st
     ∧ slideImports aborted = slideImports st
     ∧ ∀ doc, markdownFiles st !! path = Some doc →
         md_errors <$> markdownFiles aborted !! path
           = Some (Some (default [] (md_errors doc))))
  ∧ (∀ extra,
       let world := Deck.listing Deck.emptyIndex in
       let deck := load world "/deck" "/deck/A.md" None (1 + extra)
                     initialState in
       parseRangeString world (length (md_slides Deck.docB)) (Some "0,1,2")
         = [0; 1; 2]%Z
       ∧ slideAt Deck.docB 0 = None
       ∧ slide_content <$> slideAt Deck.docB 1 = Some "b1"
       ∧ slide_content <$> slideAt Deck.docB 2 = Some "b2"
       ∧ (∃ data, deck.1 = Returned data)
       ∧ content <$> slides deck.2 = ["c"]
       ∧ md_errors <$> markdownFiles deck.2 !! "/deck/B.md" = Some (Some [])
       ∧ md_errors <$> markdownFiles deck.2 !! "/deck/A.md" =
           Some (Some [ {| row := 0;
                           message := "Error when loading slide: "
                                      +:+ startOfUndefined |} ])).
Proof.
  split.
  - intros env userRoot recur path md override importers index rest st Hat.
    cbv zeta.
    assert (loopBody env userRoot recur path md override importers index st
            = (Threw startOfUndefined,
               setMarkdownFiles
                 (alter (λ d, withErrors (Some (default [] (md_errors d))) d)
                        path) st)) as Hbody.
    { unfold loopBody. by rewrite Hat. }
    split_and!; try done.
    + simpl. unfold bind. by rewrite Hbody.
    + intros doc Hdoc. simpl.
      rewrite lookup_alter, decide_True by done. by rewrite Hdoc.
  - intros extra. cbv zeta.
    rewrite (load_more_fuel (Deck.listing Deck.emptyIndex) "/deck" "/deck/A.md"
               None 1 extra initialState) by (by vm_compute).
    split_and!; try (by vm_compute). eexists. by vm_compute.
Qed.

Lemma obtainDocument_fails env extensions path e st :
  markdownFiles st !! path = None →
  fetchDocument env extensions path = Rejected e →
  ∃ st', obtainDocument env extensions path st = (Threw e, st')
         ∧ slides st' = slides st
         ∧ markdownFiles st' = markdownFiles st
         ∧ slideImports st' = slideImports st.
Proof.
  intros Hmiss Hfetch. unfold fetchDocument in Hfetch.
  unfold obtainDocument, bind, getState, callLoadSource, callParse, bind,
    modify, await. rewrite Hmiss.
  destruct (inherited path).
  { injection Hfetch as <-. by eexists. }
  destruct (loadSource env path) as [text|e'] eqn:Hsrc; simpl.
  - rewrite Hfetch. simpl. by eexists.
  - injection Hfetch as ->. by eexists.
Qed.

Lemma loadMarkdown_fails env userRoot extensions fuel path range override
    importers e st :
  markdownFiles st !! path = None →
  fetchDocument env extensions path = Rejected e →
  ∃ st', loadMarkdown env userRoot extensions fuel path range override
           importers st = (Threw e, st')
         ∧ slides st' = slides st
         ∧ markdownFiles st' = markdownFiles st
         ∧ slideImports st' = slideImports st.
Proof.
  intros Hmiss Hfetch.
  destruct (obtainDocument_fails _ _ _ _ _ Hmiss Hfetch) as (st' & Hrun & ?).
  exists st'. split; [|done].
  destruct fuel; simpl; unfold loadMarkdownBody, bind; by rewrite Hrun.
Qed.

(** An import directive whose target is remote or exists enters the loader. *)
Lemma loadSlide_enters_loader
    env userRoot recur md self slide override chain st src :
  enabled slide →
  slide_frontmatter slide !! "src" = Some (JStr src) → src ≠ "" →
  let path := resolveSrc env userRoot slide (rawPathOf src) in
  isRemote path = true ∨ existsSync env path = true →
  loadSlide env userRoot recur md self slide override chain st =
  recur path (rangeRawOf src)
    (Some (delete "src" (spread (slide_frontmatter slide) override)))
    (Some (default [] chain ++ [self]))
    (if isRemote path then st else logExists path st).
Proof.
  intros [Hd Hh] Hsrc Hne path Hok.
  unfold loadSlide. rewrite Hd, Hh, Hsrc. simpl.
  assert (String.eqb src "" = false) as -> by (by apply String.eqb_neq).
  simpl. fold path. unfold bind.
  destruct (isRemote path) eqn:Hr; simpl.
  - by destruct chain.
  - destruct Hok as [|Hex]; [done|]. rewrite Hex. simpl. by destruct chain.
Qed.

(** C8, as stated, fails: the document behind the import of the second slide
    cannot be fetched, and [load] returns all the same, with the slides
    around the import. *)
Lemma failed_import_does_not_abort_load :
  let world := Deck.world Deck.unreachableTwice in
  let deck := load world "/deck" "/deck/A.md" None 1 initialState in
  (∃ e, fetchDocument world None "https://x.test/B.md" = Rejected e)
  ∧ ∃ data, deck.1 = Returned data
            ∧ content <$> data_slides data = ["a"; "c"].
Proof.
  split; [by eexists; vm_compute|]. eexists. split; by vm_compute.
Qed.

(** C8, amended.  A failure to fetch or parse a document is not caught by the
    loader call that fetches it.  For the entry (the fetch up front, the
    loading of extensions, the loader's own fetch and parse) it ends the
    whole [load], which throws it with nothing emitted.  For an imported
    document it goes up to the loop of the importing document only: it is
    recorded there, on the row of the importing slide, and the loop body
    returns.  A deck whose entry cannot be read throws; a deck with two
    imports of a URL that cannot be fetched gets two errors, on rows 4 and 8,
    and the slides around them. *)
Theorem document_failure_propagation env userRoot filepath mode fuel :
  (∀ e, loadSource env filepath = Rejected e →
     load env userRoot filepath mode fuel initialState
       = (Threw e, logSource filepath initialState))
  ∧ (∀ markdown e,
       loadSource env filepath = Fulfilled markdown →
       preparserExtensions env markdown filepath mode = Rejected e →
       load env userRoot filepath mode fuel initialState
         = (Threw e, logSource filepath initialState))
  ∧ (∀ markdown extensions e,
       loadSource env filepath = Fulfilled markdown →
       preparserExtensions env markdown filepath mode = Fulfilled extensions →
       fetchDocument env extensions (slash filepath) = Rejected e →
       let result := load env userRoot filepath mode fuel initialState in
       result.1 = Threw e ∧ slides result.2 = []
       ∧ markdownFiles result.2 = ∅)
  ∧ (∀ extensions path range override importers e st,
       markdownFiles st !! path = None →
       fetchDocument env extensions path = Rejected e →
       ∃ st', loadMarkdown env userRoot extensions fuel path range override
                importers st = (Threw e, st')
              ∧ slides st' = slides st
              ∧ markdownFiles st' = markdownFiles st)
  ∧ (∀ extensions path md override importers index subSlide src e st,
       slideAt md index = Some subSlide →
       enabled subSlide →
       slide_frontmatter subSlide !! "src" = Some (JStr src) → src ≠ "" →
       let target := resolveSrc env userRoot subSlide (rawPathOf src) in
       isRemote target = true ∨ existsSync env target = true →
       markdownFiles st !! target = None →
       fetchDocument env extensions target = Rejected e →
       ∃ st',
         loopBody env userRoot
           (λ p r o c,
              run loadMarkdown env userRoot extensions fuel p r o c
              then ret tt)
           path md override importers index st = (Returned tt, st')
         ∧ slides st' = slides st
         ∧ ∀ doc, markdownFiles st !! path = Some doc →
             md_errors <$> markdownFiles st' !! path =
             Some (Some (default [] (md_errors doc) ++
                         [ {| row := slide_start subSlide;
                              message :=
                                "Error when loading slide: " +:+ e |} ])))
  ∧ (let unreadable :=
       load (Deck.world ∅) "/deck" "/deck/A.md" None 1 initialState in
     let deck :=
       load (Deck.world Deck.unreachableTwice) "/deck" "/deck/A.md" None 1
            initialState in
     (∃ e, unreadable.1 = Threw e) ∧ slides unreadable.2 = []
     ∧ content <$> slides deck.2 = ["a"; "c"]
     ∧ (λ d, (λ e, row e) <$> default [] (md_errors d))
         <$> markdownFiles deck.2 !! "/deck/A.md" = Some [4; 8]).
Proof.
  split_and!.
  - intros e Hsrc. unfold load, bind, callLoadSource, bind, modify, await.
    by rewrite Hsrc.
  - intros markdown e Hsrc Hext.
    unfold load, bind, callLoadSource, bind, modify, await.
    rewrite Hsrc. simpl. by rewrite Hext.
  - intros markdown extensions e Hsrc Hext Hfetch. cbv zeta.
    destruct (loadMarkdown_fails env userRoot extensions fuel (slash filepath)
                None None None e (logSource filepath initialState)
                (lookup_empty _) Hfetch) as (st' & Hrun & Hs & Hm & _).
    unfold load, bind, callLoadSource, bind, modify, await.
    rewrite Hsrc. simpl. rewrite Hext. simpl. rewrite Hrun. simpl.
    by rewrite Hs, Hm.
  - intros extensions path range override importers e st Hmiss Hfetch.
    destruct (loadMarkdown_fails env userRoot extensions fuel path range
                override importers e st Hmiss Hfetch) as (st' & ? & ? & ? & _).
    by exists st'.
  - intros extensions path md override importers index subSlide src e st
      Hat Hen Hsrc Hne target Hok Hmiss Hfetch.
    assert (markdownFiles (if isRemote target then st else logExists target st)
              !! target = None) as Hmiss'.
    { by destruct (isRemote target). }
    destruct (loadMarkdown_fails env userRoot extensions fuel target
                (rangeRawOf src)
                (Some (delete "src" (spread (slide_frontmatter subSlide) override)))
                (Some (default [] importers ++ [(path, Z.to_nat (index - 1))]))
                e _ Hmiss' Hfetch) as (st1 & Hrun & Hs1 & Hm1 & _).
    assert (loadSlide env userRoot
              (λ p r o c,
                 run loadMarkdown env userRoot extensions fuel p r o c
                 then ret tt)
              path (path, Z.to_nat (index - 1)) subSlide override importers st
            = (Threw e, st1)) as Hthrow.
    { rewrite (loadSlide_enters_loader _ _ _ _ _ _ _ _ _ src) by done.
      fold target. unfold bind. by rewrite Hrun. }
    eexists. split_and!.
    + unfold loopBody. rewrite Hat.
      unfold loadSubSlide, tryCatch, bind in *. rewrite Hthrow. simpl.
      unfold pushError, modify. reflexivity.
    + simpl. rewrite Hs1. by destruct (isRemote target).
    + intros doc Hdoc. simpl. rewrite lookup_alter, decide_True by done.
      rewrite Hm1.
      assert (markdownFiles (if isRemote target then st else logExists target st)
              = markdownFiles st) as -> by (by destruct (isRemote target)).
      by rewrite Hdoc.
  - cbv zeta. split_and!; [by eexists; vm_compute|by vm_compute..].
Qed.

(** ** Import chains *)

(** Induction on import trees, the children of an import being covered. *)
Lemma ImportTree_forall_ind (P : ImportTree → Prop) :
  (∀ self slide, P (Terminal self slide)) →
  (∀ self slide children,
     Forall P children → P (Import self slide children)) →
  (∀ self slide, P (Pruned self slide)) →
  ∀ t, P t.
Proof.
  intros Hterminal Himport Hpruned.
  fix tree_ind 1. intros [self slide|self slide children|self slide].
  - apply Hterminal.
  - apply Himport. induction children as [|t ts IH].
    + apply List.Forall_nil.
    + apply List.Forall_cons; [apply tree_ind|apply IH].
  - apply Hpruned.
Qed.

Lemma chainOf_length ancestors :
  length (default [] (chainOf ancestors)) = length ancestors.
Proof. destruct ancestors; [done|]. simpl. by rewrite length_fmap. Qed.

(** The chain of a leaf is as long as the leaf is deep. *)
Lemma preorder_depths t :
  ∀ ancestors,
    (λ l, length (leaf_ancestors l)) <$> preorder ancestors t
    = depths (length ancestors) t.
Proof.
  induction t as [self slide|self slide children IH|self slide]
    using ImportTree_forall_ind; intros ancestors; simpl; [done| |done].
  induction IH as [|t ts Ht _ IHts]; simpl; [done|].
  rewrite fmap_app, IHts, Ht. do 2 f_equal. rewrite length_app. simpl. lia.
Qed.

Lemma preorderForest_depths forest ancestors :
  (λ l, length (leaf_ancestors l)) <$> preorderForest ancestors forest
  = flat_map (depths (length ancestors)) forest.
Proof.
  induction forest as [|t ts IH]; [done|].
  rewrite preorderForest_cons, fmap_app, IH. simpl. by rewrite preorder_depths.
Qed.

Lemma emit_fmap {A} (f : SlideInfo → A) (g : Leaf → A) base leaves :
  (∀ l i, f (leafSlide l i) = g l) →
  f <$> emit base leaves = g <$> leaves.
Proof.
  intros Hfg. apply list_eq. intros i.
  rewrite !list_lookup_fmap. unfold emit. rewrite list_lookup_imap.
  destruct (leaves !! i); simpl; [by rewrite Hfg|done].
Qed.

(** C9.  The [importChain] of an output slide is the list of the import
    directives above it in the import tree, outermost first, the slide itself
    not included, so as many as the slide is deep; it is undefined, and never
    the empty list, exactly when the slide hangs directly under the entry.
    Each member is an enabled raw slide with a truthy [src].  A directive
    hands its children its own chain with itself appended, and the chains of
    the leaves of a forest are those of its parts: what one branch appends no
    other branch sees.  Through two nested hops the chain has length 2. *)
Theorem importChain_is_ancestor_path env userRoot filepath mode fuel :
  let st := (load env userRoot filepath mode fuel initialState).2 in
  let forest := entryForest env userRoot filepath mode fuel in
  (λ s, (source s, importChain s)) <$> slides st
    = (λ l, (leaf_self l, chainOf (leaf_ancestors l)))
        <$> preorderForest [] forest
  ∧ (λ s, length (default [] (importChain s))) <$> slides st
      = flat_map (depths 0) forest
  ∧ (∀ s, s ∈ slides st →
       importChain s ≠ Some []
       ∧ (importChain s = None ↔ length (default [] (importChain s)) = 0)
       ∧ ∀ ref, ref ∈ default [] (importChain s) →
           ∃ importer,
             isImport env (extensionsOf env filepath mode) (ref, importer))
  ∧ (∀ ancestors self slide,
       chainOf (ancestors ++ [(self, slide)])
       = Some (default [] (chainOf ancestors) ++ [self]))
  ∧ (∀ ancestors earlier later,
       preorderForest ancestors (earlier ++ later)
       = preorderForest ancestors earlier ++ preorderForest ancestors later)
  ∧ (∀ extra,
       let deck :=
         load (Deck.world Deck.nested) "/deck" "/deck/A.md" None (2 + extra)
              initialState in
       (λ s, (content s, importChain s)) <$> slides deck.2 =
         [ ("a", None);
           ("c", Some [("/deck/A.md", 1); ("/deck/B.md", 0)]);
           ("b", Some [("/deck/A.md", 1)]) ]).
Proof.
  cbv zeta. split_and!.
  - rewrite load_slides. by apply emit_fmap.
  - rewrite load_slides.
    rewrite (emit_fmap _ (λ l, length (leaf_ancestors l))).
    + apply (preorderForest_depths _ []).
    + intros l i. simpl. apply chainOf_length.
  - intros s [i Hs]%list_elem_of_lookup.
    apply load_slide_leaf in Hs as (l & _ & -> & _ & _ & _ & Hanc). simpl.
    split_and!.
    + by destruct (leaf_ancestors l).
    + by destruct (leaf_ancestors l).
    + intros ref [importer Hin]%chainOf_elem. exists importer.
      rewrite Forall_forall in Hanc. by apply Hanc.
  - intros ancestors self slide. rewrite chainOf_snoc.
    by destruct (chainOf ancestors).
  - intros ancestors earlier later. unfold preorderForest.
    apply flat_map_app.
  - intros extra.
    rewrite (load_more_fuel (Deck.world Deck.nested) "/deck" "/deck/A.md" None
               2 extra initialState) by (by vm_compute).
    by vm_compute.
Qed.

(** ** The entry file *)

Lemma calls_cons q p log :
  calls q (p :: log) = (if decide (p = q) then 1 else 0) + calls q log.
Proof.
  unfold calls. simpl. by destruct (string_dec p q), (decide (p = q)).
Qed.

Lemma calls_zero_not_elem q log : calls q log = 0 → q ∉ log.
Proof.
  unfold calls. intros H Hin. apply list_elem_of_In in Hin.
  by apply (count_occ_not_In string_dec) in H.
Qed.

(** C10, as stated, fails: when the entry file cannot be read, the source
    function is called for it once, and [load] throws. *)
Lemma unreadable_entry_fetched_once :
  let deck :=
    load (Deck.world ∅) "/deck" "/deck/A.md" None 1 initialState in
  sourceCalls deck.2 = ["/deck/A.md"]
  ∧ ∃ e, deck.1 = Threw e.
Proof. split; [by vm_compute|]. eexists. by vm_compute. Qed.

(** An entry named [toString], readable and parseable: line 77 finds the
    member of that name in the empty memo, nothing more is fetched, and line
    86 throws on its missing [slides]. *)
Example inherited_entry_is_fetched_once :
  let world := Deck.world {[ "toString" := Deck.document "toString" [] ]} in
  let deck := load world "/deck" "toString" None 1 initialState in
  loadSource world "toString" = Fulfilled "toString"
  ∧ inherited (slash "toString") = true
  ∧ sourceCalls deck.2 = ["toString"]
  ∧ deck.1 = Threw lengthOfUndefined.
Proof. by vm_compute. Qed.

(** C10, amended.  In a [load] whose first fetch of the entry and whose
    loading of extensions succeed, and whose entry path is not the name of a
    member the memo object inherits, the source function is called for the
    entry twice: first with the path as given, which leaves the memo empty,
    then by the loader with the path in forward-slash form, the same string
    when it has no backslash; the loader does not fetch that path again. *)
Theorem entry_is_fetched_twice
    env userRoot filepath mode fuel markdown extensions :
  loadSource env filepath = Fulfilled markdown →
  preparserExtensions env markdown filepath mode = Fulfilled extensions →
  inherited (slash filepath) = false →
  let st := (load env userRoot filepath mode fuel initialState).2 in
  (∃ st1, callLoadSource env filepath initialState = (Returned markdown, st1)
          ∧ markdownFiles st1 = ∅ ∧ sourceCalls st1 = [filepath])
  ∧ (∃ more, sourceCalls st = filepath :: slash filepath :: more
             ∧ slash filepath ∉ more)
  ∧ (slash filepath = filepath → calls filepath (sourceCalls st) = 2).
Proof.
  intros Hsrc Hext Hown st.
  assert (∃ more, sourceCalls st = filepath :: slash filepath :: more
                  ∧ slash filepath ∉ more) as (more & Hcalls & Hnot).
  { pose proof (load_sound env userRoot filepath mode fuel) as H.
    unfold wp in H. rewrite Hsrc, Hext, Hown in H. fold st in H.
    destruct H as ([_ Hlogs] & _ & _ & (more & Hcalls & Hrej) & _).
    exists more. split; [done|].
    destruct (fetchDocument env extensions (slash filepath)) as [md0|e] eqn:Hf.
    - destruct (Hlogs _ _ Hf) as [_ Hs].
      rewrite Hcalls, !calls_cons in Hs.
      rewrite (decide_True (P := slash filepath = slash filepath)) in Hs by done.
      apply calls_zero_not_elem. unfold memoized in Hs.
      change (calls (slash filepath) []) with 0 in Hs.
      repeat case_decide; lia.
    - rewrite (Hrej e eq_refl). apply not_elem_of_nil. }
  split_and!.
  - unfold callLoadSource, bind, modify, await. rewrite Hsrc. by eexists.
  - by exists more.
  - intros Hsame. rewrite Hcalls, Hsame, !calls_cons.
    rewrite !decide_True by done.
    assert (calls filepath more = 0) as ->; [|done].
    rewrite Hsame in Hnot. unfold calls.
    apply count_occ_not_In. by rewrite <- list_elem_of_In.
Qed.

(** The deck of [A.md] and [B.md]: [/deck/A.md] is fetched twice. *)
Lemma entry_is_fetched_twice_witness :
  let world := Deck.world Deck.files in
  let st := (load world "/deck" "/deck/A.md" None 1 initialState).2 in
  loadSource world "/deck/A.md" = Fulfilled "/deck/A.md"
  ∧ preparserExtensions world "/deck/A.md" "/deck/A.md" None = Fulfilled None
  ∧ inherited (slash "/deck/A.md") = false
  ∧ calls "/deck/A.md" (sourceCalls st) = 2.
Proof.
  cbv zeta. split_and!; [done..|].
  by apply (entry_is_fetched_twice (Deck.world Deck.files) "/deck"
              "/deck/A.md" None 1 "/deck/A.md" None eq_refl eq_refl eq_refl).
Defined.

(** ** Further properties of the output *)

(** X1.  Every slide of the output is a copy of a raw slide that is enabled
    and is not an import directive: content, revision, raw frontmatter, note,
    title and level are those of the raw slide its [source] refers to. *)
Theorem output_slide_copies_its_source env userRoot filepath mode fuel :
  ∀ s, s ∈ slides (load env userRoot filepath mode fuel initialState).2 →
    ∃ slide,
      rawSlideAt env (extensionsOf env filepath mode) (source s) = Some slide
      ∧ enabled slide
      ∧ truthy (slide_frontmatter slide !! "src") = false
      ∧ content s = slide_content slide
      ∧ revision s = slide_revision slide
      ∧ frontmatterRaw s = slide_frontmatterRaw slide
      ∧ note s = slide_note slide
      ∧ title s = slide_title slide
      ∧ level s = slide_level slide.
Proof.
  intros s [i Hs]%list_elem_of_lookup.
  apply load_slide_leaf in Hs as (l & _ & -> & Hloc & Hon & Hsrc & _).
  exists (leaf_slide l). by split_and!.
Qed.

Lemma overrideOf_first_definer ancestors k :
  k ≠ "src" →
  overrideOf ancestors ≫= (λ o, o !! k) =
  head (omap (λ a : SlideRef * SourceSlideInfo, slide_frontmatter a.2 !! k)
             ancestors).
Proof.
  intros Hk. induction ancestors as [|[self slide] l IH] using rev_ind; [done|].
  rewrite overrideOf_lookup by done. rewrite IH, omap_app. simpl.
  destruct (omap _ l) as [|v vs]; simpl; [|done].
  by destruct (slide_frontmatter slide !! k).
Qed.

Lemma chainOf_Forall2 env extensions ancestors :
  Forall (isImport env extensions) ancestors →
  Forall2 (λ ref importer, rawSlideAt env extensions ref = Some importer)
          (default [] (chainOf ancestors)) (ancestors.*2).
Proof.
  intros Hall.
  assert (default [] (chainOf ancestors) = ancestors.*1) as ->
    by (by destruct ancestors).
  induction Hall as [|[ref importer] l (Hloc & _) _ IH]; simpl;
    constructor; done.
Qed.

(** X2.  Outer imports win.  For every key but [src], the merged frontmatter
    of an output slide holds the value of the first raw slide that defines
    the key in the list made of the directives of its [importChain],
    outermost first, followed by the slide's own source; it lacks the key when
    none of them defines it. *)
Theorem outermost_import_wins env userRoot filepath mode fuel :
  ∀ s, s ∈ slides (load env userRoot filepath mode fuel initialState).2 →
    ∃ importers own,
      Forall2 (λ ref importer,
                 rawSlideAt env (extensionsOf env filepath mode) ref
                   = Some importer)
              (default [] (importChain s)) importers
      ∧ rawSlideAt env (extensionsOf env filepath mode) (source s) = Some own
      ∧ ∀ k, k ≠ "src" →
          frontmatter s !! k =
          head (omap (λ raw, slide_frontmatter raw !! k) (importers ++ [own])).
Proof.
  intros s [i Hs]%list_elem_of_lookup.
  apply load_slide_leaf in Hs as (l & _ & -> & Hloc & _ & _ & Hanc).
  exists ((leaf_ancestors l).*2), (leaf_slide l). split_and!.
  - by apply chainOf_Forall2.
  - done.
  - intros k Hk. simpl. rewrite spread_lookup, overrideOf_first_definer by done.
    rewrite omap_app. simpl.
    assert (omap (λ raw, slide_frontmatter raw !! k) (leaf_ancestors l).*2
            = omap (λ a : SlideRef * SourceSlideInfo,
                      slide_frontmatter a.2 !! k) (leaf_ancestors l)) as ->.
    { clear. induction (leaf_ancestors l) as [|[r x] t IH]; [done|].
      rewrite fmap_cons. simpl.
      destruct (slide_frontmatter x !! k); simpl; [f_equal|]; exact IH. }
    destruct (omap _ (leaf_ancestors l)) as [|v vs]; simpl; [|done].
    by destruct (slide_frontmatter (leaf_slide l) !! k).
Qed.

(** ** The run keeps its invariants *)

Section RunInvariants.
Variable env : Env.
Variable userRoot : string.
Variable extensions : option (list SlidevPreparserExtension).

Abbreviation RInv := (runInv env extensions).

Lemma keeps_refl st : keeps st st.
Proof. by intros path. Qed.

Lemma keeps_trans st1 st2 st3 : keeps st1 st2 → keeps st2 st3 → keeps st1 st3.
Proof. intros H12 H23 path H. by apply H23, H12. Qed.

Lemma keeps_same st st' :
  markdownFiles st' = markdownFiles st → keeps st st'.
Proof. intros Hm path. by rewrite Hm. Qed.

Lemma keeps_alter st f md : keeps st (setMarkdownFiles (alter f md) st).
Proof.
  intros path. simpl. rewrite lookup_alter. case_decide; [|done].
  subst. by rewrite fmap_is_Some.
Qed.

Lemma fetchedChecked_nothing st st' :
  sourceCalls st' = sourceCalls st → fetchedChecked env [] st st'.
Proof. intros H. exists []. by rewrite H, !app_nil_r. Qed.

Lemma fetchedChecked_trans first st1 st2 st3 :
  fetchedChecked env first st1 st2 → fetchedChecked env [] st2 st3 →
  fetchedChecked env first st1 st3.
Proof.
  intros (m1 & H1 & F1) (m2 & H2 & F2). exists (m1 ++ m2). split.
  - rewrite H2, H1. simpl. by rewrite <- !app_assoc.
  - by apply Forall_app.
Qed.

Lemma fetchedChecked_first path st1 st2 :
  checked env path →
  fetchedChecked env [path] st1 st2 → fetchedChecked env [] st1 st2.
Proof.
  intros Hc (m & H & F). exists (path :: m). split; [done|by constructor].
Qed.

(** Steps that touch none of the fields the invariants read. *)
Lemma runInv_frame st st' :
  markdownFiles st' = markdownFiles st → watchFiles st' = watchFiles st →
  slides st' = slides st → slideImports st' = slideImports st →
  existsCalls st' = existsCalls st →
  RInv st → RInv st'.
Proof.
  intros Hm Hw Hs Hi He (H1 & H2 & H3 & H4 & H5).
  unfold runInv, memoFaithful, watched, onlyLocalChecked, traceable,
    sourcesInMemo in *.
  rewrite Hm, Hw, Hs, Hi, He. done.
Qed.

Lemma runInv_logExists path st :
  isRemote path = false → occurs backslashChar path = false →
  RInv st → RInv (logExists path st).
Proof.
  intros Hr Hb (H1 & H2 & H3 & H4 & H5). split_and!; try done.
  unfold onlyLocalChecked. simpl. apply Forall_app. split; [done|].
  by apply Forall_singleton.
Qed.

(** Appending to the errors of a document. *)
Lemma runInv_errors md f st :
  (∀ d, md_filepath (f d) = md_filepath d ∧ md_raw (f d) = md_raw d
        ∧ md_slides (f d) = md_slides d
        ∧ default [] (md_errors d) `prefix_of` default [] (md_errors (f d))) →
  RInv st → RInv (setMarkdownFiles (alter f md) st).
Proof.
  intros Hf (H1 & H2 & H3 & H4 & H5). split_and!; try done.
  - intros path d. simpl. rewrite lookup_alter. case_decide as Heq; [|apply H1].
    destruct Heq. destruct (markdownFiles st !! md) as [d0|] eqn:Hd; [|done].
    simpl. intros [= <-]. destruct (H1 _ _ Hd) as (md0 & ? & ? & ? & ? & ?).
    destruct (Hf d0) as (? & ? & ? & ?).
    exists md0. split_and!; try congruence. by etrans.
  - unfold watched in *. simpl. rewrite H2. apply map_eq. intros k.
    rewrite !lookup_fmap, lookup_alter. case_decide as Heq; [|done].
    destruct Heq. by destruct (markdownFiles st !! md).
  - intros s Hs. destruct (H5 s Hs) as (d & slide & Hd & Hslide). simpl.
    destruct (decide (md = (source s).1)) as [Heq|Hne].
    + exists (f d), slide. split.
      * rewrite lookup_alter, decide_True by done. by rewrite Heq, Hd.
      * by destruct (Hf d) as (_ & _ & -> & _).
    + exists d, slide. split; [|done]. by rewrite lookup_alter, decide_False.
Qed.

Lemma withErrors_grows d e :
  md_filepath (withErrors (Some (default [] (md_errors d) ++ e)) d)
    = md_filepath d
  ∧ md_raw (withErrors (Some (default [] (md_errors d) ++ e)) d) = md_raw d
  ∧ md_slides (withErrors (Some (default [] (md_errors d) ++ e)) d)
      = md_slides d
  ∧ default [] (md_errors d)
      `prefix_of`
      default [] (md_errors (withErrors (Some (default [] (md_errors d) ++ e)) d)).
Proof. split_and!; try done. simpl. by apply prefix_app_r. Qed.

Lemma runInv_withError md e st : RInv st → RInv (withError md e st).
Proof.
  intros HI. unfold withError. apply runInv_errors; [|done].
  intros d. apply withErrors_grows.
Qed.

Lemma runInv_initErrors md st :
  RInv st →
  RInv (setMarkdownFiles
          (alter (λ d, withErrors (Some (default [] (md_errors d))) d) md) st).
Proof.
  intros HI. apply runInv_errors; [|done]. intros d. by split_and!.
Qed.

(** Storing a freshly parsed document, with its empty watch set. *)
Lemma runInv_memoize path md st :
  markdownFiles st !! path = None →
  fetchDocument env extensions path = Fulfilled md →
  RInv st →
  RInv (setWatchFiles <[path:=∅]> (setMarkdownFiles <[path:=md]> st)).
Proof.
  intros Hnone Hfetch (H1 & H2 & H3 & H4 & H5). split_and!; try done.
  - intros q d. simpl. rewrite lookup_insert. case_decide as Heq.
    + destruct Heq. intros [= <-]. exists md. by split_and!.
    + apply H1.
  - unfold watched in *. simpl. by rewrite H2, fmap_insert.
  - intros s Hs. destruct (H5 s Hs) as (d & slide & Hd & Hslide). simpl.
    exists d, slide. split; [|done].
    rewrite lookup_insert_ne; [done|]. intros ->. by rewrite Hnone in Hd.
Qed.

Lemma runInv_pushImport importer sub st :
  RInv st →
  RInv (setSlideImports
          (λ t, <[importer := default [] (t !! importer) ++ [sub]]> t) st).
Proof.
  intros (H1 & H2 & H3 & H4 & H5). split_and!; try done.
  intros s chain imp Hs Hchain Hlast. simpl.
  specialize (H4 s chain imp Hs Hchain Hlast).
  rewrite lookup_insert. case_decide as Heq; [|done].
  destruct Heq. simpl. apply elem_of_app. by left.
Qed.
End RunInvariants.

Section RunKeeps.
Variable env : Env.
Variable userRoot : string.
Variable extensions : option (list SlidevPreparserExtension).

Abbreviation RInv := (runInv env extensions).
Abbreviation RecurKeeps := (recurKeeps env extensions).

Lemma resolveSrc_local_form slide rawPath :
  isRemote (resolveSrc env userRoot slide rawPath) = false →
  occurs backslashChar (resolveSrc env userRoot slide rawPath) = false.
Proof.
  unfold resolveSrc. destruct (isRemote rawPath) eqn:Hr.
  - by rewrite Hr.
  - intros _. apply slash_no_backslash.
Qed.

Lemma loadSlide_keeps recur md self slide override importers st mdcur :
  RecurKeeps recur → RInv st →
  markdownFiles st !! self.1 = Some mdcur →
  md_slides mdcur !! self.2 = Some slide →
  wp (loadSlide env userRoot recur md self slide override importers) st
     (λ o st',
        memoFaithful env extensions st' ∧ watched st' ∧ onlyLocalChecked st'
        ∧ sourcesInMemo st' ∧ keeps st st' ∧ fetchedChecked env [] st st'
        ∧ ∀ s chain imp,
            s ∈ slides st' → importChain s = Some chain →
            last chain = Some imp →
            source s ∈ default [] (slideImports st' !! imp)
            ∨ (o = Returned tt ∧ source s = self ∧ importChain s = importers)).
Proof.
  intros Hrec HI Hdoc Hslide.
  assert (∀ (o : Outcome unit) st',
            RInv st' → keeps st st' → fetchedChecked env [] st st' →
            memoFaithful env extensions st' ∧ watched st'
            ∧ onlyLocalChecked st' ∧ sourcesInMemo st' ∧ keeps st st'
            ∧ fetchedChecked env [] st st'
            ∧ ∀ s chain imp,
                s ∈ slides st' → importChain s = Some chain →
                last chain = Some imp →
                source s ∈ default [] (slideImports st' !! imp)
                ∨ (o = Returned tt ∧ source s = self
                   ∧ importChain s = importers)) as Hdone.
  { intros o st' (H1 & H2 & H3 & H4 & H5) Hk Hf. split_and!; try done.
    intros s chain imp Hs Hc Hl. left. by eapply H4. }
  unfold loadSlide.
  destruct (truthy (slide_frontmatter slide !! "disabled")
            || truthy (slide_frontmatter slide !! "hide")).
  { apply wp_ret, Hdone; [done|apply keeps_refl|by apply fetchedChecked_nothing]. }
  destruct (truthy (slide_frontmatter slide !! "src")).
  - destruct (slide_frontmatter slide !! "src") as [[| | |src|]|];
      try (apply wp_throw, Hdone;
           [done|apply keeps_refl|by apply fetchedChecked_nothing]).
    set (path := resolveSrc env userRoot slide (rawPathOf src)).
    apply wp_bind.
    destruct (isRemote path) eqn:Hremote.
    + apply wp_ret. simpl.
      eapply wp_mono; [apply Hrec; [done|by left]|].
      intros o st' (HI' & Hk & Hf). by apply Hdone.
    + apply wp_bind, wp_bind, wp_modify, wp_ret, wp_ret.
      assert (RInv (logExists path st)) as HI1.
      { apply runInv_logExists; [done| |done].
        by apply resolveSrc_local_form. }
      destruct (existsSync env path) eqn:Hex; simpl.
      * eapply wp_mono; [apply Hrec; [done|by right]|].
        intros o st' (HI' & Hk & Hf). by apply Hdone.
      * apply wp_modify, Hdone.
        -- by apply runInv_withError.
        -- apply (keeps_alter (logExists path st)).
        -- by apply fetchedChecked_nothing.
  - apply wp_bind, wp_getState, wp_modify.
    destruct HI as (H1 & H2 & H3 & H4 & H5).
    split_and!; [done..| |by apply keeps_same| |].
    + intros s Hs. simpl in Hs. apply elem_of_app in Hs as [Hs|Hs].
      * by apply H5.
      * apply list_elem_of_singleton in Hs as ->. simpl. by exists mdcur, slide.
    + by apply fetchedChecked_nothing.
    + intros s chain imp Hs Hc Hl. simpl in Hs.
      apply elem_of_app in Hs as [Hs|Hs].
      * left. by eapply H4.
      * apply list_elem_of_singleton in Hs as ->. by right.
Qed.

Lemma loadSubSlide_keeps recur path override importers self subSlide st mdcur :
  RecurKeeps recur → RInv st →
  markdownFiles st !! self.1 = Some mdcur →
  md_slides mdcur !! self.2 = Some subSlide →
  wp (loadSubSlide env userRoot recur path override importers self subSlide) st
     (λ _ st', RInv st' ∧ keeps st st' ∧ fetchedChecked env [] st st').
Proof.
  intros Hrec HI Hdoc Hslide. unfold loadSubSlide.
  apply wp_bind, wp_tryCatch, wp_bind.
  eapply wp_mono; [by eapply loadSlide_keeps|].
  intros o st1 (H1 & H2 & H3 & H5 & Hk & Hf & Hpending).
  destruct o as [[]|e|].
  - apply wp_ret.
    destruct (importers ≫= last) as [directImporter|] eqn:Hdirect.
    + apply wp_modify. unfold runInv.
      split_and!; [done|done|done| |done|exact Hk|exact Hf].
      intros s chain imp Hs Hc Hl. simpl.
      destruct (Hpending s chain imp Hs Hc Hl) as [Hin|(_ & Hself & Him)].
      * rewrite lookup_insert. case_decide as Heq; [|done].
        destruct Heq. simpl. apply elem_of_app. by left.
      * rewrite <- Him, Hc in Hdirect. simpl in Hdirect.
        rewrite Hl in Hdirect. injection Hdirect as <-.
        rewrite lookup_insert_eq. simpl. apply elem_of_app. right.
        rewrite Hself. by apply list_elem_of_singleton.
    + apply wp_ret. unfold runInv.
      split_and!; [done|done|done| |done|exact Hk|exact Hf].
      intros s chain imp Hs Hc Hl.
      destruct (Hpending s chain imp Hs Hc Hl) as [Hin|(_ & _ & Him)]; [done|].
      rewrite <- Him, Hc in Hdirect. simpl in Hdirect. congruence.
  - apply wp_bind, wp_modify, wp_ret, wp_ret.
    assert (RInv st1) as HI1.
    { unfold runInv. split_and!; [done|done|done| |done].
      intros s chain imp Hs Hc Hl.
      by destruct (Hpending s chain imp Hs Hc Hl) as [|(? & _)]. }
    split_and!.
    + by apply runInv_withError.
    + eapply keeps_trans; [done|apply keeps_alter].
    + done.
  - unfold runInv. split_and!; [done|done|done| |done|exact Hk|exact Hf].
    intros s chain imp Hs Hc Hl.
    by destruct (Hpending s chain imp Hs Hc Hl) as [|(? & _)].
Qed.

Lemma slideAt_lookup md i slide :
  slideAt md i = Some slide → md_slides md !! Z.to_nat (i - 1) = Some slide.
Proof. unfold slideAt. by destruct (i - 1 <? 0)%Z. Qed.

Lemma loop_keeps recur path md md0 override importers indices st :
  RecurKeeps recur →
  fetchDocument env extensions path = Fulfilled md0 →
  md_slides md = md_slides md0 →
  RInv st → is_Some (markdownFiles st !! path) →
  wp (forEach (loopBody env userRoot recur path md override importers)
        indices) st
     (λ _ st', RInv st' ∧ keeps st st' ∧ fetchedChecked env [] st st').
Proof.
  intros Hrec Hfetch Hslides. revert st.
  induction indices as [|i rest IH]; intros st HI Hin.
  { apply wp_ret. split_and!;
      [done|apply keeps_refl|by apply fetchedChecked_nothing]. }
  simpl. apply wp_bind. unfold loopBody at 1.
  destruct (slideAt md i) as [subSlide|] eqn:Hat.
  - destruct Hin as [mdcur Hcur].
    assert (md_slides mdcur !! Z.to_nat (i - 1) = Some subSlide) as Hsub.
    { destruct (proj1 HI _ _ Hcur) as (md0' & Hf' & _ & _ & -> & _).
      rewrite Hfetch in Hf'. injection Hf' as <-.
      rewrite <- Hslides. by apply slideAt_lookup. }
    eapply wp_mono.
    { apply (loadSubSlide_keeps recur path override importers
               (path, Z.to_nat (i - 1)) subSlide st mdcur); done. }
    intros o st1 (HI1 & Hk1 & Hf1).
    assert (wp (forEach (loopBody env userRoot recur path md override importers)
                  rest) st1
              (λ _ st', RInv st' ∧ keeps st st' ∧ fetchedChecked env [] st st'))
      as Hrest.
    { eapply wp_mono; [apply IH; [done|apply Hk1; by eexists]|].
      intros o2 st2 (HI2 & Hk2 & Hf2). split_and!; [done| |].
      - by eapply keeps_trans.
      - by eapply fetchedChecked_trans. }
    by destruct o as [[]|e|].
  - apply wp_bind, wp_modify, wp_throw. split_and!.
    + by apply runInv_initErrors.
    + apply keeps_alter.
    + by apply fetchedChecked_nothing.
Qed.

Lemma obtainDocument_keeps path st :
  RInv st →
  wp (obtainDocument env extensions path) st
     (λ o st',
        RInv st' ∧ keeps st st'
        ∧ sourceCalls st' =
            sourceCalls st ++
            (if decide (is_Some (markdownFiles st !! path)) then []
             else if inherited path then [] else [path])
        ∧ ∀ md, o = Returned md →
            markdownFiles st' !! path = Some md
            ∧ ∃ md0, fetchDocument env extensions path = Fulfilled md0
                     ∧ md_slides md = md_slides md0).
Proof.
  intros HI. unfold obtainDocument. apply wp_bind, wp_getState.
  destruct (markdownFiles st !! path) as [md|] eqn:Hmemo.
  { apply wp_ret. rewrite decide_True by done. split_and!; try done.
    - apply keeps_refl.
    - by rewrite app_nil_r.
    - intros ? [= <-]. split; [done|].
      destruct (proj1 HI _ _ Hmemo) as (md0 & ? & _ & _ & ? & _).
      by exists md0. }
  rewrite decide_False by (by intros []).
  destruct (inherited path) eqn:Hown.
  { apply wp_throw. split_and!; [done|apply keeps_refl| |done].
    by rewrite app_nil_r. }
  unfold callLoadSource, callParse.
  apply wp_bind, wp_bind, wp_modify, wp_await.
  destruct (loadSource env path) as [text|e] eqn:Hsrc.
  2:{ split_and!; [by eapply runInv_frame|by apply keeps_same|done|done]. }
  apply wp_bind, wp_bind, wp_modify, wp_await.
  destruct (parse env text path extensions) as [md|e] eqn:Hparse.
  2:{ split_and!; [by eapply runInv_frame|by apply keeps_same|done|done]. }
  apply wp_bind, wp_modify, wp_bind, wp_modify, wp_ret.
  assert (fetchDocument env extensions path = Fulfilled md) as Hfetch.
  { unfold fetchDocument. by rewrite Hown, Hsrc. }
  split_and!; try done.
  - apply (runInv_memoize env extensions path md
             (logParse path (logSource path st))); [done..|].
    by eapply runInv_frame.
  - intros q Hq. simpl. rewrite lookup_insert. by case_decide.
  - intros ? [= <-]. split; [by simpl; rewrite lookup_insert_eq|by exists md].
Qed.

Lemma loadMarkdownBody_keeps recur path range override importers st :
  RecurKeeps recur → RInv st →
  wp (loadMarkdownBody env userRoot extensions recur path range override
        importers) st
     (λ o st',
        RInv st' ∧ keeps st st'
        ∧ fetchedChecked env
            (if decide (is_Some (markdownFiles st !! path)) then []
             else if inherited path then [] else [path])
            st st'
        ∧ ∀ md, o = Returned md → markdownFiles st' !! path = Some md).
Proof.
  intros Hrec HI. unfold loadMarkdownBody. apply wp_bind.
  eapply wp_mono; [by apply obtainDocument_keeps|].
  intros [md|e|] st1 (HI1 & Hk1 & Hc1 & Hret).
  2,3: (split_and!; [done|done| |done]; exists [];
        split; [by rewrite Hc1, app_nil_r|done]).
  destruct (Hret md eq_refl) as (Hin & md0 & Hfetch & Hslides).
  apply wp_bind.
  eapply wp_mono.
  { apply (loop_keeps recur path md md0); done || by eexists. }
  intros o st2 (HI2 & Hk2 & (more & Hc2 & Hall)).
  assert (keeps st st2) as Hk by (by eapply keeps_trans).
  assert (fetchedChecked env
            (if decide (is_Some (markdownFiles st !! path)) then []
             else if inherited path then [] else [path])
            st st2) as Hf.
  { exists more. split; [|done]. rewrite Hc2, Hc1. simpl.
    by rewrite <- app_assoc. }
  destruct o as [[]|e|]; [|done..].
  apply wp_bind, wp_getState, wp_ret. split_and!; try done.
  intros ? [= <-]. destruct (Hk2 path) as [md2 Hmd2]; [by eexists|].
  by rewrite Hmd2.
Qed.

Lemma loadMarkdown_keeps fuel :
  ∀ path range override importers st,
    RInv st →
    wp (loadMarkdown env userRoot extensions fuel path range override
          importers) st
       (λ o st',
          RInv st' ∧ keeps st st'
          ∧ fetchedChecked env
              (if decide (is_Some (markdownFiles st !! path)) then []
               else if inherited path then [] else [path]) st st'
          ∧ ∀ md, o = Returned md → markdownFiles st' !! path = Some md).
Proof.
  induction fuel as [|fuel IH]; intros path range override importers st HI;
    simpl; apply loadMarkdownBody_keeps; try done.
  - intros p r o c st0 HI0 _. apply wp_diverge.
    split_and!; [done|apply keeps_refl|by apply fetchedChecked_nothing].
  - intros p r o c st0 HI0 Hchecked. apply wp_bind.
    eapply wp_mono; [by apply IH|].
    intros out st1 (HI1 & Hk1 & Hf1 & _).
    assert (fetchedChecked env [] st0 st1) as Hf.
    { destruct (decide (is_Some (markdownFiles st0 !! p))); [done|].
      destruct (inherited p); [done|].
      by apply (fetchedChecked_first env p). }
    destruct out as [md|e|]; [apply wp_ret|..]; by split_and!.
Qed.
End RunKeeps.

(** ** What [load] hands back *)

Lemma initial_runInv env extensions filepath :
  runInv env extensions (logSource filepath initialState).
Proof.
  split_and!.
  - intros path md. simpl. by rewrite lookup_empty.
  - unfold watched. simpl. by rewrite fmap_empty.
  - by constructor.
  - intros s chain imp Hs. simpl in Hs. by apply elem_of_nil in Hs.
  - intros s Hs. simpl in Hs. by apply elem_of_nil in Hs.
Qed.

Lemma load_keeps env userRoot filepath mode fuel :
  wp (load env userRoot filepath mode fuel) initialState
     (λ o st,
        runInv env (extensionsOf env filepath mode) st
        ∧ (sourceCalls st = [filepath]
           ∨ ∃ more, sourceCalls st = filepath :: slash filepath :: more
                     ∧ Forall (checked env) more)
        ∧ ∀ data, o = Returned data →
            markdownFiles st !! slash filepath = Some (data_entry data)
            ∧ data_slides data = slides st
            ∧ data_markdownFiles data = markdownFiles st
            ∧ data_watchFiles data = watchFiles st
            ∧ data_headmatter data = headmatterOf (data_entry data) (slides st)
            ∧ data_features data =
                detectFeatures env
                  (foldr String.append "" (sourceRaw st <$> slides st))).
Proof.
  unfold load, callLoadSource, extensionsOf.
  apply wp_bind, wp_bind, wp_modify, wp_await.
  destruct (loadSource env filepath) as [markdown|e].
  2:{ split_and!; [apply initial_runInv|by left|done]. }
  apply wp_bind, wp_await.
  destruct (preparserExtensions env markdown filepath mode) as [extensions|e].
  2:{ split_and!; [apply initial_runInv|by left|done]. }
  apply wp_bind.
  eapply wp_mono.
  { apply wp_and.
    - apply (loadMarkdown_keeps env userRoot extensions fuel).
      apply initial_runInv.
    - apply (loadMarkdown_sound env userRoot extensions [filepath] fuel []).
      apply initial_loaderInv. }
  intros o st [(HI & _ & (more & Hc & Hall) & Hentry) [_ Hfirst]].
  specialize (Hfirst (lookup_empty _)).
  simpl in Hc. rewrite lookup_empty in Hc.
  rewrite decide_False in Hc by (by intros []).
  assert (sourceCalls st = [filepath]
          ∨ ∃ more, sourceCalls st = filepath :: slash filepath :: more
                    ∧ Forall (checked env) more) as Hlog.
  { destruct (inherited (slash filepath)); [by left|right; by exists more]. }
  destruct o as [entry|e|].
  - apply wp_bind, wp_getState, wp_ret. split_and!; [done|done|].
    intros ? [= <-]. simpl. split_and!; try done. by apply Hentry.
  - by split_and!.
  - by split_and!.
Qed.

Lemma load_final env userRoot filepath mode fuel :
  let result := load env userRoot filepath mode fuel initialState in
  runInv env (extensionsOf env filepath mode) result.2
  ∧ (sourceCalls result.2 = [filepath]
     ∨ ∃ more, sourceCalls result.2 = filepath :: slash filepath :: more
               ∧ Forall (checked env) more)
  ∧ ∀ data, result.1 = Returned data →
      markdownFiles result.2 !! slash filepath = Some (data_entry data)
      ∧ data_slides data = slides result.2
      ∧ data_markdownFiles data = markdownFiles result.2
      ∧ data_watchFiles data = watchFiles result.2
      ∧ data_headmatter data
          = headmatterOf (data_entry data) (slides result.2)
      ∧ data_features data =
          detectFeatures env
            (foldr String.append ""
               (sourceRaw result.2 <$> slides result.2)).
Proof. apply (load_keeps env userRoot filepath mode fuel). Qed.

(** X3.  Traceability: when [load] is over, every output slide that came
    through an import is listed in the [imports] of its direct importer, the
    last directive of its [importChain]. *)
Theorem output_slide_is_listed_by_its_importer env userRoot filepath mode fuel :
  let st := (load env userRoot filepath mode fuel initialState).2 in
  ∀ s chain importer,
    s ∈ slides st → importChain s = Some chain →
    last chain = Some importer →
    source s ∈ default [] (slideImports st !! importer).
Proof.
  destruct (load_final env userRoot filepath mode fuel)
    as ((_ & _ & _ & Htrace & _) & _).
  exact Htrace.
Qed.

(** X4.  When [load] is over, the watch map has an entry for each memoized
    document and for nothing else, and each entry is the empty set; the data
    returned hold that map. *)
Theorem watch_map_covers_the_memo env userRoot filepath mode fuel :
  let result := load env userRoot filepath mode fuel initialState in
  (∀ path, watchFiles result.2 !! path
           = (λ _, ∅) <$> markdownFiles result.2 !! path)
  ∧ ∀ data, result.1 = Returned data →
      ∀ path, data_watchFiles data !! path
              = (λ _, ∅) <$> data_markdownFiles data !! path.
Proof.
  destruct (load_final env userRoot filepath mode fuel)
    as ((_ & Hw & _) & _ & Hdata).
  cbv zeta. unfold watched in Hw. split.
  - intros path. by rewrite Hw, lookup_fmap.
  - intros data Hret path. destruct (Hdata data Hret) as (_ & _ & -> & -> & _).
    by rewrite Hw, lookup_fmap.
Qed.

(** X5.  [existsSync] is only ever asked about local paths in forward-slash
    form: never about an [http(s)://] path, never about a path with a
    backslash. *)
Theorem existsSync_only_on_local_paths env userRoot filepath mode fuel :
  ∀ path,
    path ∈ existsCalls (load env userRoot filepath mode fuel initialState).2 →
    isRemote path = false ∧ occurs backslashChar path = false.
Proof.
  destruct (load_final env userRoot filepath mode fuel)
    as ((_ & _ & Hlocal & _) & _).
  unfold onlyLocalChecked in Hlocal. rewrite Forall_forall in Hlocal.
  exact Hlocal.
Qed.


(** X7.  A document of the memo is the document the parser gave for its
    path: same file path, same text, same raw slides, and the parser's errors
    still there, first and in order, before those [load] added. *)
Theorem memoized_document_is_the_parsed_one env userRoot filepath mode fuel :
  let st := (load env userRoot filepath mode fuel initialState).2 in
  ∀ path md, markdownFiles st !! path = Some md →
    ∃ parsed,
      fetchDocument env (extensionsOf env filepath mode) path = Fulfilled parsed
      ∧ md_filepath md = md_filepath parsed
      ∧ md_raw md = md_raw parsed
      ∧ md_slides md = md_slides parsed
      ∧ ∃ added, default [] (md_errors md)
                 = default [] (md_errors parsed) ++ added.
Proof.
  destruct (load_final env userRoot filepath mode fuel) as ((Hm & _) & _).
  intros st path md Hin.
  destruct (Hm path md Hin) as (parsed & ? & ? & ? & ? & added & ?).
  exists parsed. split_and!; try done. by exists added.
Qed.

(** X8.  When [load] returns, its [entry] is the document memoized under the
    forward-slash form of the entry path, with the raw slides the parser gave
    for that path. *)
Theorem returned_entry_is_the_memoized_entry env userRoot filepath mode fuel :
  ∀ data,
    (load env userRoot filepath mode fuel initialState).1 = Returned data →
    data_markdownFiles data !! slash filepath = Some (data_entry data)
    ∧ ∃ parsed,
        fetchDocument env (extensionsOf env filepath mode) (slash filepath)
          = Fulfilled parsed
        ∧ md_slides (data_entry data) = md_slides parsed.
Proof.
  intros data Hret.
  destruct (load_final env userRoot filepath mode fuel) as ((Hm & _) & _ & Hdata).
  destruct (Hdata data Hret) as (Hentry & _ & -> & _). split; [done|].
  destruct (Hm _ _ Hentry) as (parsed & ? & _ & _ & ? & _). by exists parsed.
Qed.

(** The slide [c] of the nested deck, reached through two imports. *)
Lemma output_slide_copies_its_source_witness :
  let world := Deck.world Deck.nested in
  let st := (load world "/deck" "/deck/A.md" None 2 initialState).2 in
  ∃ s slide,
    s ∈ slides st ∧ source s = ("/deck/C.md", 0)
    ∧ rawSlideAt world (extensionsOf world "/deck/A.md" None) (source s)
        = Some slide
    ∧ enabled slide
    ∧ content s = slide_content slide.
Proof.
  cbv zeta.
  assert (∃ s, s ∈ slides (load (Deck.world Deck.nested) "/deck" "/deck/A.md"
                             None 2 initialState).2
               ∧ source s = ("/deck/C.md", 0)) as (s & Hin & Hsource).
  { eexists. split; [apply list_elem_of_lookup; exists 1|]; by vm_compute. }
  destruct (output_slide_copies_its_source (Deck.world Deck.nested) "/deck"
              "/deck/A.md" None 2 s Hin)
    as (slide & Hraw & Hon & _ & Hcontent & _).
  by exists s, slide.
Defined.

(** The slide of [B.md] in the overriding deck: [layout] comes from the
    directive in [A.md]. *)
Lemma outermost_import_wins_witness :
  let world := Deck.world Deck.overriding in
  let st := (load world "/deck" "/deck/A.md" None 1 initialState).2 in
  ∃ s importers own,
    s ∈ slides st
    ∧ frontmatter s !! "layout" = Some (JStr "cover")
    ∧ frontmatter s !! "layout" =
        head (omap (λ raw, slide_frontmatter raw !! "layout")
                   (importers ++ [own])).
Proof.
  cbv zeta.
  assert (∃ s, s ∈ slides (load (Deck.world Deck.overriding) "/deck"
                             "/deck/A.md" None 1 initialState).2
               ∧ frontmatter s !! "layout" = Some (JStr "cover"))
    as (s & Hin & Hlayout).
  { eexists. split; [apply list_elem_of_lookup; exists 0|]; by vm_compute. }
  destruct (outermost_import_wins (Deck.world Deck.overriding) "/deck"
              "/deck/A.md" None 1 s Hin) as (importers & own & _ & _ & Hkey).
  exists s, importers, own. split_and!; [done..|].
  by apply Hkey.
Defined.

(** The slide [c] of the nested deck is listed by the directive of [B.md]. *)
Lemma output_slide_is_listed_by_its_importer_witness :
  let st :=
    (load (Deck.world Deck.nested) "/deck" "/deck/A.md" None 2
       initialState).2 in
  ∃ s, s ∈ slides st
       ∧ importChain s = Some [("/deck/A.md", 1); ("/deck/B.md", 0)]
       ∧ source s ∈ default [] (slideImports st !! ("/deck/B.md", 0)).
Proof.
  cbv zeta.
  assert (∃ s, s ∈ slides (load (Deck.world Deck.nested) "/deck" "/deck/A.md"
                             None 2 initialState).2
               ∧ importChain s = Some [("/deck/A.md", 1); ("/deck/B.md", 0)])
    as (s & Hin & Hchain).
  { eexists. split; [apply list_elem_of_lookup; exists 1|]; by vm_compute. }
  exists s. split_and!; [done..|].
  by apply (output_slide_is_listed_by_its_importer (Deck.world Deck.nested)
              "/deck" "/deck/A.md" None 2 s
              [("/deck/A.md", 1); ("/deck/B.md", 0)] ("/deck/B.md", 0)).
Defined.

(** The one path [existsSync] is asked about for the deck with a missing
    import. *)
Lemma existsSync_only_on_local_paths_witness :
  let st :=
    (load (Deck.world Deck.missingImport) "/deck" "/deck/A.md" None 1
       initialState).2 in
  "/deck/missing.md" ∈ existsCalls st
  ∧ isRemote "/deck/missing.md" = false
  ∧ occurs backslashChar "/deck/missing.md" = false.
Proof.
  cbv zeta.
  assert ("/deck/missing.md"
          ∈ existsCalls (load (Deck.world Deck.missingImport) "/deck"
                           "/deck/A.md" None 1 initialState).2) as Hin.
  { apply list_elem_of_lookup. exists 0. by vm_compute. }
  split; [done|].
  by apply (existsSync_only_on_local_paths (Deck.world Deck.missingImport)
              "/deck" "/deck/A.md" None 1).
Defined.

(** The entry of the deck with a missing import: one error added to none. *)
Lemma memoized_document_is_the_parsed_one_witness :
  let world := Deck.world Deck.missingImport in
  let st := (load world "/deck" "/deck/A.md" None 1 initialState).2 in
  ∃ md parsed,
    markdownFiles st !! "/deck/A.md" = Some md
    ∧ fetchDocument world (extensionsOf world "/deck/A.md" None) "/deck/A.md"
        = Fulfilled parsed
    ∧ md_slides md = md_slides parsed
    ∧ length (default [] (md_errors md)) = 1.
Proof.
  cbv zeta.
  assert (∃ md, markdownFiles
                  (load (Deck.world Deck.missingImport) "/deck" "/deck/A.md"
                     None 1 initialState).2 !! "/deck/A.md" = Some md
                ∧ length (default [] (md_errors md)) = 1) as (md & Hin & Hlen).
  { eexists. split; by vm_compute. }
  destruct (memoized_document_is_the_parsed_one (Deck.world Deck.missingImport)
              "/deck" "/deck/A.md" None 1 "/deck/A.md" md Hin)
    as (parsed & Hfetch & _ & _ & Hslides & _).
  by exists md, parsed.
Defined.

(** The deck of [A.md] and [B.md]. *)
Lemma returned_entry_is_the_memoized_entry_witness :
  let result :=
    load (Deck.world Deck.files) "/deck" "/deck/A.md" None 1 initialState in
  ∃ data,
    result.1 = Returned data
    ∧ data_markdownFiles data !! slash "/deck/A.md" = Some (data_entry data)
    ∧ length (md_slides (data_entry data)) = 3.
Proof.
  cbv zeta.
  assert (∃ data,
            (load (Deck.world Deck.files) "/deck" "/deck/A.md" None 1
               initialState).1 = Returned data
            ∧ length (md_slides (data_entry data)) = 3) as (data & Hret & Hlen).
  { eexists. split; by vm_compute. }
  exists data. split_and!; [done| |done].
  by apply (returned_entry_is_the_memoized_entry (Deck.world Deck.files)
              "/deck" "/deck/A.md" None 1 data Hret).
Defined.

Lemma load_sourceRaw env userRoot filepath mode fuel :
  let st := (load env userRoot filepath mode fuel initialState).2 in
  sourceRaw st <$> slides st =
  (λ l, slide_raw (leaf_slide l))
    <$> preorderForest [] (entryForest env userRoot filepath mode fuel).
Proof.
  cbv zeta.
  destruct (load_final env userRoot filepath mode fuel)
    as ((Hm & _ & _ & _ & Hsrc) & _).
  apply list_eq. intros i. rewrite !list_lookup_fmap.
  destruct (slides (load env userRoot filepath mode fuel initialState).2 !! i)
    as [s|] eqn:Hs.
  - pose proof Hs as Hleaf.
    apply load_slide_leaf in Hleaf as (l & -> & Hsl & Hloc & _).
    simpl. f_equal.
    destruct (Hsrc s) as (md & slide & Hmd & Hslide).
    { apply list_elem_of_lookup. by exists i. }
    destruct (Hm _ _ Hmd) as (md0 & Hfetch & _ & _ & Hslides & _).
    unfold sourceRaw. rewrite Hmd. simpl. rewrite Hslide.
    unfold rawSlideAt in Hloc. rewrite Hsl in Hmd, Hslide, Hfetch. simpl in *.
    rewrite Hfetch in Hloc. rewrite Hslides in Hslide. congruence.
  - rewrite load_slides in Hs. unfold emit in Hs.
    rewrite list_lookup_imap in Hs.
    by destruct (preorderForest [] _ !! i).
Qed.

(** X9.  Feature detection is run once, over the raw texts of the slides of
    the output, in output order, joined with nothing between them: the raw
    slides of the leaves of the import tree in pre-order.  Skipped slides and
    import directives contribute no text. *)
Theorem features_are_detected_over_the_output env userRoot filepath mode fuel :
  ∀ data,
    (load env userRoot filepath mode fuel initialState).1 = Returned data →
    data_features data =
    detectFeatures env
      (foldr String.append ""
         ((λ l, slide_raw (leaf_slide l))
            <$> preorderForest []
                  (entryForest env userRoot filepath mode fuel))).
Proof.
  intros data Hret.
  destruct (load_final env userRoot filepath mode fuel) as (_ & _ & Hdata).
  destruct (Hdata data Hret) as (_ & _ & _ & _ & _ & ->).
  by rewrite load_sourceRaw.
Qed.

(** The deck of [A.md] and [B.md]: the detector is given [ab1b2c]. *)
Lemma features_are_detected_over_the_output_witness :
  let result :=
    load (echoingWorld Deck.files) "/deck" "/deck/A.md" None 1 initialState in
  ∃ data, result.1 = Returned data ∧ data_features data = ["ab1b2c"].
Proof.
  cbv zeta.
  assert (∃ data,
            (load (echoingWorld Deck.files) "/deck" "/deck/A.md" None 1
               initialState).1 = Returned data) as (data & Hret).
  { eexists. by vm_compute. }
  exists data. split; [done|].
  rewrite (features_are_detected_over_the_output (echoingWorld Deck.files)
             "/deck" "/deck/A.md" None 1 data Hret).
  by vm_compute.
Defined.

(** X10.  The headmatter [load] returns is read off the first raw slide of
    the parsed entry document, whether or not that slide is emitted: every
    key but [title] is as in that slide's frontmatter.  A [title] there that
    is not null is kept; when it is absent or null, the title of the first
    slide of the output, if that slide has a non-empty one, is filled in, and
    otherwise nothing changes. *)
Theorem headmatter_is_read_off_the_first_raw_slide
    env userRoot filepath mode fuel :
  ∀ data,
    (load env userRoot filepath mode fuel initialState).1 = Returned data →
    ∃ parsed,
      fetchDocument env (extensionsOf env filepath mode) (slash filepath)
        = Fulfilled parsed
      ∧ let own k :=
          md_slides parsed !! 0 ≫= (λ first, slide_frontmatter first !! k) in
        let firstTitle := data_slides data !! 0 ≫= title in
        (∀ k, k ≠ "title" → data_headmatter data !! k = own k)
        ∧ (∀ v, own "title" = Some v → v ≠ JNull →
             data_headmatter data !! "title" = Some v)
        ∧ (own "title" = None ∨ own "title" = Some JNull →
           ∀ t, firstTitle = Some t → t ≠ "" →
             data_headmatter data !! "title" = Some (JStr t))
        ∧ (own "title" = None ∨ own "title" = Some JNull →
           firstTitle = None ∨ firstTitle = Some "" →
           data_headmatter data !! "title" = own "title").
Proof.
  intros data Hret.
  destruct (load_final env userRoot filepath mode fuel) as ((Hm & _) & _ & Hdata).
  destruct (Hdata data Hret) as (Hentry & -> & _ & _ & -> & _).
  destruct (Hm _ _ Hentry) as (parsed & Hfetch & _ & _ & Hslides & _).
  exists parsed. split; [done|]. cbv zeta. unfold headmatterOf.
  rewrite Hslides.
  set (out := slides (load env userRoot filepath mode fuel initialState).2).
  destruct (md_slides parsed !! 0) as [first|]; simpl;
    destruct (out !! 0 ≫= title) as [t|]; simpl;
    try destruct (String.eqb_spec t ""); simpl;
    try destruct (slide_frontmatter first !! "title") as [[]|] eqn:Hv.
  all: split_and!; intros; destruct_or?; simplify_eq/=.
  all: rewrite ?lookup_insert_eq, ?lookup_insert_ne, ?lookup_empty by done.
  all: try done.
  all: rewrite lookup_insert_ne by (by intros <-).
  all: by rewrite ?lookup_empty.
Qed.

(** A hidden first slide with a [theme], and a first output slide titled
    [Hello]: the headmatter has both. *)
Lemma headmatter_is_read_off_the_first_raw_slide_witness :
  let result :=
    load (Deck.world titledDeck) "/deck" "/deck/A.md" None 1 initialState in
  ∃ data,
    result.1 = Returned data
    ∧ content <$> data_slides data = ["b"]
    ∧ data_headmatter data !! "theme" = Some (JStr "seriph")
    ∧ data_headmatter data !! "hide" = Some (JBool true)
    ∧ data_headmatter data !! "title" = Some (JStr "Hello").
Proof.
  cbv zeta.
  assert (∃ data,
            (load (Deck.world titledDeck) "/deck" "/deck/A.md" None 1
               initialState).1 = Returned data
            ∧ content <$> data_slides data = ["b"]
            ∧ data_slides data !! 0 ≫= title = Some "Hello")
    as (data & Hret & Hout & Htitle).
  { eexists. split_and!; by vm_compute. }
  destruct (headmatter_is_read_off_the_first_raw_slide (Deck.world titledDeck)
              "/deck" "/deck/A.md" None 1 data Hret)
    as (parsed & Hfetch & Hother & _ & Hfill & _).
  assert (parsed = Deck.document "/deck/A.md"
            [ Deck.rawSlide "/deck/A.md"
                {[ "hide" := JBool true; "theme" := JStr "seriph" ]} 0 "h";
              Deck.rawSlide "/deck/A.md" {[ "src" := JStr "B.md" ]} 4 "" ])
    as ->.
  { vm_compute in Hfetch. by injection Hfetch as <-. }
  exists data. split_and!; try done.
  - by rewrite Hother.
  - by rewrite Hother.
  - by apply Hfill; [left|..].
Defined.

(** ** A deck without imports *)

Section Plain.
Variable env : Env.
Variable userRoot : string.
Variable expand : string → option string → list ImportTree * Outcome unit.
Variable path : string.
Variable md : SlidevMarkdown.


End Plain.



(** ** Saving, and the default source function *)




(** ** The headmatter scan *)

Lemma prependUnit_cons c piece more :
  prependUnit c (piece :: more) = (c :: piece) :: more.
Proof. done. Qed.

Lemma splitLines_join line s :
  wholeLine line →
  splitLines (line ++ lineFeed :: s) = line :: splitLines s.
Proof.
  intros [Hfeed Hlast]. induction line as [|c rest IH]; [done|].
  assert (c ≠ lineFeed) as Hc by (intros ->; apply Hfeed; by left).
  assert (wholeLine rest → splitLines (rest ++ lineFeed :: s)
                           = rest :: splitLines s) as IH'.
  { intros [? ?]. by apply IH. }
  simpl. rewrite (proj2 (N.eqb_neq c lineFeed) Hc).
  destruct rest as [|c' rest'].
  - simpl. destruct (N.eqb_spec c carriageReturn) as [->|_]; [done|].
    simpl. done.
  - assert (c' ≠ lineFeed) as Hc'
      by (intros ->; apply Hfeed; right; by left).
    change ((c' :: rest') ++ lineFeed :: s)
      with (c' :: (rest' ++ lineFeed :: s)).
    cbv iota beta.
    rewrite (proj2 (N.eqb_neq c' lineFeed) Hc'), andb_false_r.
    change (c' :: (rest' ++ lineFeed :: s))
      with ((c' :: rest') ++ lineFeed :: s).
    rewrite IH'; [done|]. split.
    + intros Hin. apply Hfeed. by right.
    + done.
Qed.

Lemma splitLines_whole line : wholeLine line → splitLines line = [line].
Proof.
  intros [Hfeed Hlast]. induction line as [|c rest IH]; [done|].
  assert (c ≠ lineFeed) as Hc by (intros ->; apply Hfeed; by left).
  simpl. rewrite (proj2 (N.eqb_neq c lineFeed) Hc).
  destruct rest as [|c' rest']; [done|].
  assert (c' ≠ lineFeed) as Hc'
    by (intros ->; apply Hfeed; right; by left).
  rewrite (proj2 (N.eqb_neq c' lineFeed) Hc'), andb_false_r.
  rewrite IH; [done| |done].
  intros Hin. apply Hfeed. by right.
Qed.

(** Splitting the join of whole lines gives the lines back. *)
Lemma splitLines_joinLines lines :
  lines ≠ [] → Forall wholeLine lines →
  splitLines (joinLines lines) = lines.
Proof.
  induction lines as [|line more IH]; [done|]. intros _ Hall.
  apply Forall_cons in Hall as [Hline Hmore].
  destruct more as [|next more'].
  - by apply splitLines_whole.
  - change (joinLines (line :: next :: more'))
      with (line ++ lineFeed :: joinLines (next :: more')).
    rewrite splitLines_join by done. by rewrite IH.
Qed.

Lemma dropWhileUnits_all {A} (p : A → bool) l :
  forallb p l = true → dropWhileUnits p l = [].
Proof.
  induction l as [|x rest IH]; [done|]. simpl.
  intros [-> ?]%andb_true_iff. by apply IH.
Qed.

Lemma forallb_reverse {A} (p : A → bool) l :
  forallb p (reverse l) = forallb p l.
Proof.
  induction l as [|x rest IH]; [done|].
  rewrite reverse_cons, forallb_app, IH. simpl.
  rewrite andb_true_r. apply andb_comm.
Qed.

Lemma closing_fence_not_blank line :
  closesHeadmatter line = true → blankLine line = false.
Proof.
  unfold closesHeadmatter, blankLine, trimEnd. intros Hclose.
  apply bool_decide_eq_true in Hclose.
  destruct (forallb whiteSpace line) eqn:Hblank; [|done].
  rewrite dropWhileUnits_all in Hclose; [done|].
  by rewrite forallb_reverse.
Qed.

Lemma takeUntil_app {A} (p : A → bool) body after :
  Forall (λ x, p x = false) body →
  from_option p true (head after) = true →
  takeUntil p (body ++ after) = body.
Proof.
  intros Hbody Hafter. induction Hbody as [|x rest Hx _ IH]; simpl.
  - destruct after as [|y more]; [done|]. simpl in *. by rewrite Hafter.
  - by rewrite Hx, IH.
Qed.

(** X14.  For a text made of whole lines (no line feed inside, no carriage
    return at the end) joined by line feeds, whose first line opens a
    headmatter, the text handed to the YAML parser is the lines after the
    first up to, but not including, the first line that closes a headmatter,
    joined by line feeds; when no line closes it, all the lines after the
    first.  This is so when the line after the opening one, if any, is not
    blank. *)
Theorem headmatter_is_between_the_fences opening body after :
  opensHeadmatter opening = true →
  Forall wholeLine (opening :: body ++ after) →
  Forall (λ line, closesHeadmatter line = false) body →
  from_option closesHeadmatter true (head after) = true →
  from_option blankLine false (head body) = false →
  headmatterText (joinLines (opening :: body ++ after)) = joinLines body.
Proof.
  intros Hopen Hwhole Hbody Hafter Hfirst. unfold headmatterText.
  rewrite splitLines_joinLines by done. simpl.
  rewrite Hopen. simpl.
  assert (from_option blankLine false ((body ++ after) !! 0) = false) as ->.
  { destruct body as [|line more]; [|done]. simpl.
    destruct after as [|closing rest]; [done|]. simpl in *.
    by apply closing_fence_not_blank. }
  simpl. rewrite drop_0. by rewrite takeUntil_app.
Qed.

(** The text [---], [a: 1], [---], [# Hi], with line feeds between: the
    headmatter is [a: 1]. *)
Lemma headmatter_is_between_the_fences_witness :
  let fence := [45; 45; 45]%N in
  let entry := [97; 58; 32; 49]%N in
  let heading := [35; 32; 72; 105]%N in
  joinLines [fence; entry; fence; heading]
    = [45; 45; 45; 10; 97; 58; 32; 49; 10; 45; 45; 45; 10; 35; 32; 72; 105]%N
  ∧ headmatterText (joinLines [fence; entry; fence; heading]) = entry.
Proof.
  cbv zeta. split; [done|].
  apply (headmatter_is_between_the_fences [45; 45; 45]%N
           [[97; 58; 32; 49]%N] [[45; 45; 45]%N; [35; 32; 72; 105]%N]).
  - done.
  - apply (bool_decide_eq_true_1 _). by vm_compute.
  - apply (bool_decide_eq_true_1 _). by vm_compute.
  - by vm_compute.
  - by vm_compute.
Defined.

(** ** What a failing import cannot do *)




(** X16.  A slide that is disabled or hidden is still listed: when it is
    reached under an importer, the loop body returns having appended its
    reference to the [imports] of the direct importer, and nothing else in
    the state has changed. *)
Theorem skipped_slide_is_listed_in_imports
    env userRoot recur path override chain importer self subSlide st :
  truthy (slide_frontmatter subSlide !! "disabled")
  || truthy (slide_frontmatter subSlide !! "hide") = true →
  last chain = Some importer →
  loadSubSlide env userRoot recur path override (Some chain) self subSlide st
  = (Returned tt,
     setSlideImports
       (λ t, <[importer := default [] (t !! importer) ++ [self]]> t) st).
Proof.
  intros Hskip Hlast.
  unfold loadSubSlide, bind, tryCatch, loadSlide. rewrite Hskip. simpl.
  by rewrite Hlast.
Qed.

(** The hidden slide of a document imported by the second slide of
    [A.md]. *)
Lemma skipped_slide_is_listed_in_imports_witness :
  let hidden := Deck.rawSlide "/deck/B.md" {[ "hide" := JBool true ]} 0 "h" in
  let result :=
    loadSubSlide (Deck.world Deck.files) "/deck" (λ _ _ _ _, diverge)
      "/deck/B.md" None (Some [("/deck/A.md", 1)]) ("/deck/B.md", 0) hidden
      initialState in
  result.1 = Returned tt
  ∧ slides result.2 = []
  ∧ slideImports result.2 !! ("/deck/A.md", 1) = Some [("/deck/B.md", 0)].
Proof.
  cbv zeta.
  assert (truthy (slide_frontmatter
                    (Deck.rawSlide "/deck/B.md" {[ "hide" := JBool true ]} 0 "h")
                    !! "disabled")
          || truthy (slide_frontmatter
                       (Deck.rawSlide "/deck/B.md" {[ "hide" := JBool true ]}
                          0 "h") !! "hide") = true) as Hskip
    by (by vm_compute).
  rewrite (skipped_slide_is_listed_in_imports (Deck.world Deck.files) "/deck"
             (λ _ _ _ _, diverge) "/deck/B.md" None [("/deck/A.md", 1)]
             ("/deck/A.md", 1) ("/deck/B.md", 0)
             (Deck.rawSlide "/deck/B.md" {[ "hide" := JBool true ]} 0 "h")
             initialState Hskip eq_refl).
  by vm_compute.
Defined.
